(** * AutoFlow workflow engine: a shallow embedding and its properties

    The development follows the workflow engine module (class
    [WorkflowEngine]: [execute], [executeAction], [resolveVariables],
    [substituteString], [getNestedValue], [validateWorkflow]) and the
    execution part of [database/db.js].

    Modelling conventions.
    - JavaScript values are the JSON-like values the engine handles,
      plus [undefined].  Numbers are the integer-valued ones (a [Z]);
      numbers with a fractional part, NaN and the infinities have no
      counterpart.  Strings are sequences of ASCII characters.
    - An object is the list of its own enumerable properties, in the
      order of their insertion (that the runtime enumerates names that
      are array indices first is not modelled).  What property access
      finds beyond them, in the prototypes of the runtime, and the
      text of numbers from 1e21 on, are given by a [Runtime], a
      parameter of the resolver and of the engine; it answers per
      value and path.
    - The action handlers live in a module that is not part of the
      sources at hand: the handler registry is a parameter of the
      engine.  A handler returns a value or throws: an error object
      with a message, or any other value.
    - The persistence layer is assumed to succeed; a TEXT column that
      holds [JSON.stringify] of a value is modelled by the value that
      text denotes, and any other column by the parameter bound to
      it. *)

From Stdlib Require Import ZArith String Ascii List Bool Arith Lia.
From Stdlib Require Import DecimalString Decimal DecimalNat.
Import ListNotations.

Set Warnings "-register-all".

Open Scope list_scope.
Open Scope string_scope.

(* ================================================================== *)
(** ** JavaScript values *)
(* ================================================================== *)

Inductive value : Type :=
| VUndefined : value
| VNull : value
| VBool : bool -> value
| VNum : Z -> value
| VStr : string -> value
| VArr : list value -> value
| VObj : list (string * value) -> value.

(** Induction principle that reaches the values stored inside arrays
    and objects. *)
Section ValueInd.
Variable P : value -> Prop.
Hypothesis Hundef : P VUndefined.
Hypothesis Hnull : P VNull.
Hypothesis Hbool : forall b, P (VBool b).
Hypothesis Hnum : forall n, P (VNum n).
Hypothesis Hstr : forall s, P (VStr s).
Hypothesis Harr : forall xs, Forall P xs -> P (VArr xs).
Hypothesis Hobj : forall fs, Forall (fun kv => P (snd kv)) fs -> P (VObj fs).

Fixpoint value_nested_ind (v : value) : P v :=
  match v with
  | VUndefined => Hundef
  | VNull => Hnull
  | VBool b => Hbool b
  | VNum n => Hnum n
  | VStr s => Hstr s
  | VArr xs =>
      Harr xs
        ((fix go (l : list value) : Forall P l :=
            match l with
            | [] => Forall_nil P
            | x :: r => Forall_cons x (value_nested_ind x) (go r)
            end) xs)
  | VObj fs =>
      Hobj fs
        ((fix go (l : list (string * value)) : Forall (fun kv => P (snd kv)) l :=
            match l with
            | [] => Forall_nil _
            | kv :: r =>
                Forall_cons kv
                  (match kv as p return P (snd p) with
                   | (_, x) => value_nested_ind x
                   end)
                  (go r)
            end) fs)
  end.
End ValueInd.

Definition is_undefined (v : value) : bool :=
  match v with VUndefined => true | _ => false end.

Definition is_nullish (v : value) : bool :=
  match v with VUndefined | VNull => true | _ => false end.

(** [ToBoolean]: the falsy values are undefined, null, false, 0 and the
    empty string. *)
Definition truthy (v : value) : bool :=
  match v with
  | VUndefined | VNull => false
  | VBool b => b
  | VNum n => negb (n =? 0)%Z
  | VStr s => negb (s =? "")
  | VArr _ | VObj _ => true
  end.

(** Decimal rendering of numbers, as in template literals and in
    [String(n)]. *)
Definition nat_to_string (n : nat) : string :=
  NilEmpty.string_of_uint (Nat.to_uint n).

(* ================================================================== *)
(** ** Exceptions *)
(* ================================================================== *)

(** What a [throw] carries: an [Error] or a [TypeError] object with its
    message, or any other value (a handler may throw a string, an
    object, null or undefined). *)
Inductive exn : Type :=
| Error : string -> exn
| TypeError : string -> exn
| Thrown : value -> exn.

Inductive outcome (A : Type) : Type :=
| Returned : A -> outcome A
| Raised : exn -> outcome A.

Arguments Returned {A} _.
Arguments Raised {A} _.

Definition obind {A B : Type} (m : outcome A) (k : A -> outcome B) : outcome B :=
  match m with
  | Returned a => k a
  | Raised e => Raised e
  end.

Declare Scope outcome_scope.
Delimit Scope outcome_scope with outcome.
Notation "'let?' x ':=' m 'in' k" :=
  (obind m (fun x => k))
  (at level 10, x name, m at level 100, k at level 200) : outcome_scope.



Open Scope outcome_scope.

(* ================================================================== *)
(** ** The runtime, and conversion to text *)
(* ================================================================== *)

(** What the embedding takes from the JavaScript runtime.
    [inherited_text v segs] is the text of what property access reaches
    from the value [v] along the path [segs], whose first segment is
    not an own property of [v] (a member of a prototype, such as
    [constructor] or [toString]); it is [None] when the walk of
    [getNestedValue] ends on undefined there.  [exponent_text n] is the
    text of a number of magnitude 1e21 or more. *)
Record Runtime : Type := mkRuntime {
  inherited_text : value -> list string -> option string;
  exponent_text : Z -> string
}.

(** [Number::toString]: the digits, or the exponent form from 1e21 on. *)
Definition Number_toString (rt : Runtime) (n : Z) : string :=
  if (Z.abs n <? 10 ^ 21)%Z then NilZero.string_of_int (Z.to_int n)
  else exponent_text rt n.

(** *** Own properties *)

Fixpoint obj_get (fs : list (string * value)) (key : string) : value :=
  match fs with
  | [] => VUndefined
  | (k, v) :: r => if k =? key then v else obj_get r key
  end.


Definition has_key (fs : list (string * value)) (key : string) : bool :=
  existsb (fun kv => fst kv =? key) fs.

(** [ToString].  An array is [join(",")] of its elements, where null and
    undefined elements give the empty string.  A plain object gives the
    fixed text of [Object.prototype.toString], unless it has a property
    [toString] of its own: that property is data, not a function, and
    the conversion to a primitive fails. *)
Fixpoint ToString (rt : Runtime) (v : value) : outcome string :=
  match v with
  | VUndefined => Returned "undefined"
  | VNull => Returned "null"
  | VBool true => Returned "true"
  | VBool false => Returned "false"
  | VNum n => Returned (Number_toString rt n)
  | VStr s => Returned s
  | VArr xs =>
      (fix join (l : list value) : outcome string :=
         match l with
         | [] => Returned ""
         | x :: rest =>
             let? e := match x with
                       | VUndefined | VNull => Returned ""
                       | _ => ToString rt x
                       end in
             match rest with
             | [] => Returned e
             | _ :: _ => let? r := join rest in Returned (e ++ "," ++ r)
             end
         end) xs
  | VObj fs =>
      if has_key fs "toString"
      then Raised (TypeError "Cannot convert object to primitive value")
      else Returned "[object Object]"
  end.

(** *** Own properties, continued *)

(** [o[key] = v]: overwrite in place, or add the property at the end. *)
Fixpoint obj_set (fs : list (string * value)) (key : string) (v : value)
  : list (string * value) :=
  match fs with
  | [] => [(key, v)]
  | (k, x) :: r => if k =? key then (k, v) :: r else (k, x) :: obj_set r key v
  end.

(** A property name is an array index when it is the canonical decimal
    form of a number. *)
Definition array_index (key : string) : option nat :=
  match NilEmpty.uint_of_string key with
  | Some d =>
      let n := Nat.of_uint d in
      if nat_to_string n =? key then Some n else None
  | None => None
  end.

(** [v[key]] for a value [v] that is neither null nor undefined. *)
Definition Get (v : value) (key : string) : value :=
  match v with
  | VObj fs => obj_get fs key
  | VArr xs =>
      if key =? "length" then VNum (Z.of_nat (List.length xs))
      else match array_index key with
           | Some i => nth i xs VUndefined
           | None => VUndefined
           end
  | VStr s =>
      if key =? "length" then VNum (Z.of_nat (String.length s))
      else match array_index key with
           | Some i =>
               match String.get i s with
               | Some c => VStr (String c "")
               | None => VUndefined
               end
           | None => VUndefined
           end
  | _ => VUndefined
  end.


(** [v.key]: reading a property of null or undefined raises. *)
Definition member (v : value) (key : string) : outcome value :=
  match v with
  | VUndefined =>
      Raised (TypeError ("Cannot read properties of undefined (reading '" ++ key ++ "')"))
  | VNull =>
      Raised (TypeError ("Cannot read properties of null (reading '" ++ key ++ "')"))
  | _ => Returned (Get v key)
  end.

(** Whether [key] is an own property of [v]. *)
Definition has_own (v : value) (key : string) : bool :=
  match v with
  | VObj fs => has_key fs key
  | VArr xs =>
      (key =? "length")
      || match array_index key with
         | Some i => Nat.ltb i (List.length xs)
         | None => false
         end
  | VStr s =>
      (key =? "length")
      || match array_index key with
         | Some i => Nat.ltb i (String.length s)
         | None => false
         end
  | _ => false
  end.

(** [o[key] = v] on a plain object [o].  The name [__proto__] is the
    accessor of [Object.prototype]: assigning to it creates no property
    (it replaces the prototype when [v] is an object or null, which the
    list of own properties does not show). *)
Definition assign (fs : list (string * value)) (key : string) (v : value)
  : list (string * value) :=
  if key =? "__proto__" then fs else obj_set fs key v.

(* ================================================================== *)
(** ** String primitives used by the resolver *)
(* ================================================================== *)

Definition is_space (c : ascii) : bool :=
  match nat_of_ascii c with
  | 9 | 10 | 11 | 12 | 13 | 32 => true
  | _ => false
  end.

Fixpoint trim_start (s : string) : string :=
  match s with
  | "" => ""
  | String c s' => if is_space c then trim_start s' else s
  end.

Fixpoint trim_end (s : string) : string :=
  match s with
  | "" => ""
  | String c s' =>
      match trim_end s' with
      | "" => if is_space c then "" else String c ""
      | t => String c t
      end
  end.

(** [String.prototype.trim] *)
Definition trim (s : string) : string := trim_end (trim_start s).

(** [String.prototype.split] with a one-character separator. *)
Fixpoint split (sep : ascii) (s : string) : list string :=
  match s with
  | "" => [""]
  | String c s' =>
      if Ascii.eqb c sep then "" :: split sep s'
      else match split sep s' with
           | seg :: r => String c seg :: r
           | [] => [String c ""]
           end
  end.

(** The pattern [/\{\{([^}]+)\}\}/]: the longest run without a closing
    brace, and what follows it. *)
Fixpoint take_path (s : string) : string * string :=
  match s with
  | "" => ("", "")
  | String c s' =>
      if Ascii.eqb c "}" then ("", s)
      else let (p, r) := take_path s' in (String c p, r)
  end.

(** A match of the pattern at the head of [s]; the result is the
    captured group.  The greedy run cannot give characters back: the
    character after a shorter run is not a closing brace. *)
Definition match_token (s : string) : option string :=
  match s with
  | String "{" (String "{" t) =>
      match take_path t with
      | (String c p, String "}" (String "}" _)) => Some (String c p)
      | _ => None
      end
  | _ => None
  end.

(** [str.replace(/\{\{([^}]+)\}\}/g, f)]: left to right, matches do not
    overlap; the value [f] returns is converted to text, and the first
    conversion that throws ends the call.  [skip] counts the characters
    of the current match that are still to be dropped. *)
Fixpoint replace_tokens (f : string -> string -> outcome string) (skip : nat)
  (s : string) : outcome string :=
  match s with
  | "" => Returned ""
  | String c s' =>
      match skip with
      | S n => replace_tokens f n s'
      | O =>
          match match_token s with
          | Some p =>
              let? t := f ("{{" ++ p ++ "}}") p in
              let? r := replace_tokens f (3 + String.length p) s' in
              Returned (t ++ r)
          | None =>
              let? r := replace_tokens f 0 s' in
              Returned (String c r)
          end
      end
  end.

(* ================================================================== *)
(** ** Variable resolver *)
(* ================================================================== *)

(** Where a walk along a path stands: on a value of the data, or, once
    a segment has named a member that is not an own property, in the
    objects of the runtime, [segs] away from the value [from]. *)
Inductive reached : Type :=
| Data : value -> reached
| Builtin : value -> list string -> reached.

(** [getNestedValue(obj, path)] *)
Definition getNestedValue (obj : value) (path : string) : reached :=
  fold_left
    (fun current key =>
       match current with
       | Data v =>
           if truthy v then
             if has_own v key then Data (Get v key) else Builtin v [key]
           else Data VUndefined
       | Builtin v segs => Builtin v (segs ++ [key])%list
       end)
    (split "." path) (Data obj).

(** The callback of [substituteString], with the conversion to text
    that [replace] applies to what it returns. *)
Definition substitute (rt : Runtime) (context : value) (match_ path : string)
  : outcome string :=
  match getNestedValue context (trim path) with
  | Data v => if negb (is_undefined v) then ToString rt v else Returned match_
  | Builtin v segs =>
      match inherited_text rt v segs with
      | Some t => Returned t
      | None => Returned match_
      end
  end.

(** [substituteString(str, context)] *)
Definition substituteString (rt : Runtime) (str : string) (context : value)
  : outcome string :=
  replace_tokens (substitute rt context) 0 str.

(** [resolveVariables(config, context)] *)
Fixpoint resolveVariables (rt : Runtime) (config : value) (context : value)
  : outcome value :=
  match config with
  | VStr s => let? t := substituteString rt s context in Returned (VStr t)
  | VArr xs =>
      let? ys :=
        (fix map_items (l : list value) : outcome (list value) :=
           match l with
           | [] => Returned []
           | item :: rest =>
               let? y := resolveVariables rt item context in
               let? ys := map_items rest in
               Returned (y :: ys)
           end) xs in
      Returned (VArr ys)
  | VObj fs =>
      let? resolved :=
        (fix entries (l : list (string * value)) (resolved : list (string * value))
           : outcome (list (string * value)) :=
           match l with
           | [] => Returned resolved
           | (key, v) :: rest =>
               let? y := resolveVariables rt v context in
               entries rest (assign resolved key y)
           end) fs [] in
      Returned (VObj resolved)
  | _ => Returned config
  end.

(* ================================================================== *)
(** ** Path lookup, stated apart from the code *)
(* ================================================================== *)


(** The walk that [getNestedValue] performs, by recursion on the
    segments: property access on every truthy value, own properties
    first; the value reached by the last segment is not tested. *)
Fixpoint walk (v : value) (segs : list string) : reached :=
  match segs with
  | [] => Data v
  | key :: rest =>
      if truthy v then
        if has_own v key then walk (Get v key) rest
        else Builtin v (key :: rest)
      else Data VUndefined
  end.

(** The text an occurrence [{{p}}] is replaced by. *)
Definition replacement (rt : Runtime) (context : value) (p : string)
  : outcome string :=
  match walk context (split "." (trim p)) with
  | Data v =>
      if is_undefined v then Returned ("{{" ++ p ++ "}}") else ToString rt v
  | Builtin v segs =>
      match inherited_text rt v segs with
      | Some t => Returned t
      | None => Returned ("{{" ++ p ++ "}}")
      end
  end.

(** No text [{{] inside a string, and inside the strings of a value
    (property names are not looked at: they are never substituted). *)
Fixpoint no_open (s : string) : bool :=
  match s with
  | "" => true
  | String c s' =>
      match c, s' with
      | "{"%char, String "{" _ => false
      | _, _ => no_open s'
      end
  end.

Fixpoint no_open_value (v : value) : bool :=
  match v with
  | VStr s => no_open s
  | VArr xs => forallb no_open_value xs
  | VObj fs => forallb (fun kv => match kv with (_, x) => no_open_value x end) fs
  | _ => true
  end.


Fixpoint no_close (s : string) : bool :=
  match s with
  | "" => true
  | String c s' => negb (Ascii.eqb c "}") && no_close s'
  end.

(** Objects as the engine builds and receives them: property names are
    pairwise distinct, at every depth. *)
Inductive normal : value -> Prop :=
| normal_undefined : normal VUndefined
| normal_null : normal VNull
| normal_bool b : normal (VBool b)
| normal_num n : normal (VNum n)
| normal_str s : normal (VStr s)
| normal_arr xs : Forall normal xs -> normal (VArr xs)
| normal_obj fs :
    NoDup (map fst fs) -> Forall (fun kv => normal (snd kv)) fs ->
    normal (VObj fs).


(** No property is named [__proto__], at any depth. *)
Fixpoint plain_keys (v : value) : bool :=
  match v with
  | VArr xs => forallb plain_keys xs
  | VObj fs =>
      forallb (fun kv => match kv with
                         | (k, x) => negb (k =? "__proto__") && plain_keys x
                         end) fs
  | _ => true
  end.


(** A runtime for the examples: no inherited member is defined. *)
Definition bare_runtime : Runtime :=
  {| inherited_text := fun _ _ => None; exponent_text := fun _ => "" |}.

(* ================================================================== *)
(** ** Workflow validator *)
(* ================================================================== *)

Record ValidationResult : Type := mkValidation {
  valid : bool;
  errors : list string
}.

(** [errors.push(msg)] under the guard [if (!v)]. *)
Definition push_unless (v : value) (msg : string) (errors : list string)
  : list string :=
  if truthy v then errors else (errors ++ [msg])%list.

(** The callback of [workflow.actions.forEach], run over the elements
    from index [i] on. *)
Fixpoint forEach_action (xs : list value) (i : nat) (errors : list string)
  : outcome (list string) :=
  match xs with
  | [] => Returned errors
  | action :: rest =>
      (let? id := member action "id" in
       let errors := push_unless id
                       ("Action " ++ nat_to_string i ++ " must have an id") errors in
       let? type := member action "type" in
       let errors := push_unless type
                       ("Action " ++ nat_to_string i ++ " must have a type") errors in
       let? config := member action "config" in
       let errors := push_unless config
                       ("Action " ++ nat_to_string i ++ " must have config") errors in
       forEach_action rest (S i) errors)%outcome
  end.

Definition isArray (v : value) : bool :=
  match v with VArr _ => true | _ => false end.

(** [validateWorkflow(workflow)] *)
Definition validateWorkflow (workflow : value) : outcome ValidationResult :=
  (let errors := @nil string in
   let? id := member workflow "id" in
   let errors := push_unless id "Workflow must have an id" errors in
   let? name := member workflow "name" in
   let errors := push_unless name "Workflow must have a name" errors in
   let? actions := member workflow "actions" in
   let errors :=
     if negb (truthy actions) || negb (isArray actions)
     then (errors ++ ["Workflow must have an actions array"])%list
     else errors in
   let? errors :=
     if truthy actions then
       match actions with
       | VArr xs => forEach_action xs 0 errors
       | _ => Raised (TypeError "workflow.actions.forEach is not a function")
       end
     else Returned errors in
   Returned {| valid := Nat.eqb (List.length errors) 0; errors := errors |})%outcome.

(** The checks as the specification lists them, each on its own: the
    messages a workflow definition deserves, workflow-level first, then
    action by action. *)
Definition workflow_checks (workflow : value) : list string :=
  List.app
    (if truthy (Get workflow "id") then [] else ["Workflow must have an id"])
    (List.app
       (if truthy (Get workflow "name") then [] else ["Workflow must have a name"])
       (if isArray (Get workflow "actions") then []
        else ["Workflow must have an actions array"])).

Definition action_checks (i : nat) (action : value) : list string :=
  List.app
    (if truthy (Get action "id") then []
     else ["Action " ++ nat_to_string i ++ " must have an id"])
    (List.app
       (if truthy (Get action "type") then []
        else ["Action " ++ nat_to_string i ++ " must have a type"])
       (if truthy (Get action "config") then []
        else ["Action " ++ nat_to_string i ++ " must have config"])).

Fixpoint actions_checks (i : nat) (xs : list value) : list string :=
  match xs with
  | [] => []
  | a :: rest => List.app (action_checks i a) (actions_checks (S i) rest)
  end.


(* ================================================================== *)
(** ** Persistence: the executions and execution_steps tables *)
(* ================================================================== *)

Inductive Status : Type := running | completed | failed.

(** An entry of the in-memory execution log:
    [{step, status, output}] or [{step, status, error}]. *)
Record LogEntry : Type := mkLogEntry {
  step : string;
  status : Status;
  output : option value;
  error : option value
}.

(** The value the text [JSON.stringify(v)] denotes: a property whose
    value is undefined is left out, an undefined element of an array
    becomes null. *)
Fixpoint json (v : value) : value :=
  match v with
  | VArr xs =>
      VArr (map (fun x => match x with
                          | VUndefined => VNull
                          | _ => json x
                          end) xs)
  | VObj fs =>
      VObj ((fix props (l : list (string * value)) : list (string * value) :=
               match l with
               | [] => []
               | (k, x) :: rest =>
                   match x with
                   | VUndefined => props rest
                   | _ => (k, json x) :: props rest
                   end
               end) fs)
  | _ => v
  end.

Definition json_property (o : option value) : option value :=
  match o with
  | Some VUndefined => None
  | Some v => Some (json v)
  | None => None
  end.

Definition json_entry (e : LogEntry) : LogEntry :=
  {| step := step e; status := status e;
     output := json_property (output e); error := json_property (error e) |}.

Record ExecutionRow : Type := mkExecutionRow {
  ex_id : string;
  ex_workflow_id : string;
  ex_status : Status;
  ex_trigger_data : value;
  ex_execution_log : option (list LogEntry);
  ex_completed_at : option string;
  ex_error_message : option value
}.

Record StepRow : Type := mkStepRow {
  st_id : nat;
  st_execution_id : string;
  st_step_id : string;
  st_step_type : string;
  st_status : Status;
  st_input_data : value;
  st_output_data : option value;
  st_error_message : option value
}.

(** [step_sequence] is the AUTOINCREMENT counter of execution_steps. *)
Record Database : Type := mkDatabase {
  executions : list ExecutionRow;
  execution_steps : list StepRow;
  step_sequence : nat
}.

(** [v || {}] *)
Definition or_empty_object (v : value) : value :=
  if truthy v then v else VObj [].

(** [s || null] for a string that may be absent. *)
Definition or_null (s : option string) : option string :=
  match s with
  | Some m => if m =? "" then None else Some m
  | None => None
  end.

(** [v || null] for a property that may be absent. *)
Definition truthy_or_null (o : option value) : option value :=
  match o with
  | Some v => if truthy v then Some v else None
  | None => None
  end.

(** [createExecution(execution)] *)
Definition createExecution (id workflow_id : string) (st : Status)
  (trigger_data : value) (d : Database) : Database :=
  {| executions :=
       (executions d ++
        [ {| ex_id := id; ex_workflow_id := workflow_id; ex_status := st;
             ex_trigger_data := json (or_empty_object trigger_data);
             ex_execution_log := None; ex_completed_at := None;
             ex_error_message := None |} ])%list;
     execution_steps := execution_steps d;
     step_sequence := step_sequence d |}.

(** The [updates] object of [updateExecution], as the engine passes it:
    always with a status; another property that is absent is [None].
    (Without any truthy property the SQL statement the code builds has
    an empty SET clause: that call is outside the model.) *)
Record ExecutionUpdates : Type := mkExecutionUpdates {
  up_status : Status;
  up_execution_log : option (list LogEntry);
  up_error_message : option value;
  up_completed_at : option string
}.

Definition update_execution_row (u : ExecutionUpdates) (r : ExecutionRow)
  : ExecutionRow :=
  {| ex_id := ex_id r;
     ex_workflow_id := ex_workflow_id r;
     ex_status := up_status u;
     ex_trigger_data := ex_trigger_data r;
     ex_execution_log :=
       match up_execution_log u with
       | Some l => Some (map json_entry l)
       | None => ex_execution_log r
       end;
     ex_completed_at :=
       match or_null (up_completed_at u) with
       | Some t => Some t
       | None => ex_completed_at r
       end;
     ex_error_message :=
       match truthy_or_null (up_error_message u) with
       | Some m => Some m
       | None => ex_error_message r
       end |}.

(** [updateExecution(id, updates)]: only the truthy properties of
    [updates] are written. *)
Definition updateExecution (id : string) (u : ExecutionUpdates) (d : Database)
  : Database :=
  {| executions :=
       map (fun r => if ex_id r =? id then update_execution_row u r else r)
         (executions d);
     execution_steps := execution_steps d;
     step_sequence := step_sequence d |}.

(** [createExecutionStep(step)], with the row id it returns. *)
Definition createExecutionStep (execution_id step_id step_type : string)
  (st : Status) (input_data : value) (d : Database) : nat * Database :=
  let id := S (step_sequence d) in
  (id,
   {| executions := executions d;
      execution_steps :=
        (execution_steps d ++
         [ {| st_id := id; st_execution_id := execution_id;
              st_step_id := step_id; st_step_type := step_type;
              st_status := st;
              st_input_data := json (or_empty_object input_data);
              st_output_data := None; st_error_message := None |} ])%list;
      step_sequence := id |}).

Definition update_step_row (st : Status) (output_data : value)
  (error_message : option value) (r : StepRow) : StepRow :=
  {| st_id := st_id r;
     st_execution_id := st_execution_id r;
     st_step_id := st_step_id r;
     st_step_type := st_step_type r;
     st_status := st;
     st_input_data := st_input_data r;
     st_output_data := Some (json (or_empty_object output_data));
     st_error_message := truthy_or_null error_message |}.

(** [updateExecutionStep(id, updates)]; an absent [output_data] is
    [VUndefined], an absent [error_message] is [None]. *)
Definition updateExecutionStep (id : nat) (st : Status) (output_data : value)
  (error_message : option value) (d : Database) : Database :=
  {| executions := executions d;
     execution_steps :=
       map (fun r => if Nat.eqb (st_id r) id
                     then update_step_row st output_data error_message r
                     else r)
         (execution_steps d);
     step_sequence := step_sequence d |}.

(* ================================================================== *)
(** ** Execution orchestrator *)
(* ================================================================== *)

Record Action : Type := mkAction {
  act_id : string;
  act_type : string;
  act_config : value;
  act_output : value
}.

Record Workflow : Type := mkWorkflow {
  wf_id : string;
  wf_name : string;
  wf_actions : list Action
}.

(** What [execute] draws from its environment: the identifier given by
    [uuidv4()] and the two readings of [new Date().toISOString()]. *)
Record Env : Type := mkEnv {
  uuidv4 : string;
  date_at_start : string;
  date_at_end : string
}.

Record ExecutionResult : Type := mkResult {
  success : bool;
  execution_id : string;
  result_error : option value;
  log : list LogEntry;
  context : option (list (string * value))
}.

(** [error.message]: the message of an error object; for another
    thrown value a property read, which raises on null and undefined. *)
Definition read_message (e : exn) : outcome value :=
  match e with
  | Error m | TypeError m => Returned (VStr m)
  | Thrown v => member v "message"
  end.

(** The properties an object inherits from an array installed as its
    prototype: the elements under their indices, and the length. *)
Definition array_props (xs : list value) : list (string * value) :=
  (combine (map nat_to_string (seq 0 (List.length xs))) xs
   ++ [("length", VNum (Z.of_nat (List.length xs)))])%list.

(** [context[key] = v] on the context of a run, given as its own
    properties and the properties it inherits from a prototype
    installed by an earlier such assignment.  Under the name
    [__proto__] an object, an array or null becomes the prototype and
    any other value is ignored. *)
Definition assign_context (key : string) (v : value)
  (own inherited : list (string * value))
  : list (string * value) * list (string * value) :=
  if key =? "__proto__" then
    match v with
    | VObj fs => (own, fs)
    | VArr xs => (own, array_props xs)
    | VNull => (own, [])
    | _ => (own, inherited)
    end
  else (obj_set own key v, inherited).

Section Engine.

(** The world the handlers act on, the runtime, and the handler
    registry ([this.actionHandlers.getHandler]). *)
Variable W : Type.

Variable rt : Runtime.

Definition handler : Type := value -> W -> outcome value * W.

Variable getHandler : string -> option handler.

(** The objects a run mutates: the tables, the world, and the two
    locals [context] and [executionLog] of [execute]; the context is
    its own properties and those it inherits. *)
Record Run : Type := mkRun {
  run_db : Database;
  run_world : W;
  run_context : list (string * value);
  run_inherited : list (string * value);
  run_log : list LogEntry
}.

Definition M (A : Type) : Type := Run -> outcome A * Run.

Definition ret {A : Type} (a : A) : M A := fun r => (Returned a, r).

Definition throw {A : Type} (e : exn) : M A := fun r => (Raised e, r).

Definition bind {A B : Type} (m : M A) (k : A -> M B) : M B :=
  fun r =>
    match m r with
    | (Returned a, r') => k a r'
    | (Raised e, r') => (Raised e, r')
    end.

(** [try { body } catch (error) { handle }]: the effects of [body]
    up to the throw stay. *)
Definition try_catch {A : Type} (body : M A) (handle : exn -> M A) : M A :=
  fun r =>
    match body r with
    | (Returned a, r') => (Returned a, r')
    | (Raised e, r') => handle e r'
    end.

(** An expression that may throw and has no other effect. *)
Definition lift {A : Type} (o : outcome A) : M A := fun r => (o, r).

Definition with_db {A : Type} (op : Database -> A * Database) : M A :=
  fun r =>
    let (a, d) := op (run_db r) in
    (Returned a,
     {| run_db := d; run_world := run_world r;
        run_context := run_context r; run_inherited := run_inherited r;
        run_log := run_log r |}).

(** The context as property access sees it. *)
Definition view (own inherited : list (string * value)) : value :=
  VObj (own ++ inherited)%list.

Definition get_context : M value :=
  fun r => (Returned (view (run_context r) (run_inherited r)), r).

Definition get_own_context : M (list (string * value)) :=
  fun r => (Returned (run_context r), r).

Definition set_context (key : string) (v : value) : M unit :=
  fun r =>
    let (own, inherited) :=
      assign_context key v (run_context r) (run_inherited r) in
    (Returned tt,
     {| run_db := run_db r; run_world := run_world r;
        run_context := own; run_inherited := inherited;
        run_log := run_log r |}).

Definition get_log : M (list LogEntry) :=
  fun r => (Returned (run_log r), r).

Definition push_log (e : LogEntry) : M unit :=
  fun r =>
    (Returned tt,
     {| run_db := run_db r; run_world := run_world r;
        run_context := run_context r; run_inherited := run_inherited r;
        run_log := (run_log r ++ [e])%list |}).

(** An effect on the world that may throw. *)
Definition with_world {A : Type} (op : W -> outcome A * W) : M A :=
  fun r =>
    let (res, w) := op (run_world r) in
    (res,
     {| run_db := run_db r; run_world := w;
        run_context := run_context r; run_inherited := run_inherited r;
        run_log := run_log r |}).

(** [executeAction(type, config)] *)
Definition executeAction (type : string) (config : value) (w : W)
  : outcome value * W :=
  match getHandler type with
  | None => (Raised (Error ("Unknown action type: " ++ type)), w)
  | Some h => h config w
  end.

Notation "x <- m ;; k" := (bind m (fun x => k))
  (at level 61, m at next level, right associativity).
Notation "m ;;; k" := (bind m (fun _ => k))
  (at level 61, right associativity).

(** The body of the loop of [execute], for one action.  The template
    literal of [console.error] converts the message to text, which may
    throw as well. *)
Definition run_action (executionId : string) (action : Action) : M unit :=
  stepDbId <- with_db (createExecutionStep executionId (act_id action)
                         (act_type action) running (act_config action)) ;;
  try_catch
    (context <- get_context ;;
     resolvedConfig <- lift (resolveVariables rt (act_config action) context) ;;
     result <- with_world (executeAction (act_type action) resolvedConfig) ;;
     (if truthy (act_output action)
      then key <- lift (ToString rt (act_output action)) ;;
           set_context key result
      else ret tt) ;;;
     with_db (fun d => (tt, updateExecutionStep stepDbId completed result None d)) ;;;
     push_log {| step := act_id action; status := completed;
                 output := Some result; error := None |})
    (fun error =>
       msg <- lift (read_message error) ;;
       lift (ToString rt msg) ;;;
       with_db (fun d => (tt, updateExecutionStep stepDbId failed VUndefined
                                (Some msg) d)) ;;;
       push_log {| step := act_id action; status := failed;
                   output := None; error := Some msg |} ;;;
       throw error).

(** [for (let i = 0; i < workflow.actions.length; i++)] *)
Fixpoint for_actions (executionId : string) (actions : list Action) : M unit :=
  match actions with
  | [] => ret tt
  | action :: rest =>
      run_action executionId action ;;; for_actions executionId rest
  end.

(** The context a run starts from. *)
Definition seeded_context (env : Env) (workflow : Workflow) (triggerData : value)
  : list (string * value) :=
  [ ("trigger", triggerData);
    ("workflow", VObj [("id", VStr (wf_id workflow));
                       ("name", VStr (wf_name workflow))]);
    ("now", VStr (date_at_start env));
    ("executionId", VStr (uuidv4 env)) ].

(** The state of a run when the loop is entered. *)
Definition start_of_run (env : Env) (workflow : Workflow) (triggerData : value)
  (d : Database) (w : W) : Run :=
  let triggerData := if is_undefined triggerData then VObj [] else triggerData in
  {| run_db := createExecution (uuidv4 env) (wf_id workflow) running triggerData d;
     run_world := w;
     run_context := seeded_context env workflow triggerData;
     run_inherited := [];
     run_log := [] |}.

(** [execute(workflow, triggerData = {})] *)
Definition execute (env : Env) (workflow : Workflow) (triggerData : value)
  (d : Database) (w : W) : outcome ExecutionResult * Run :=
  let executionId := uuidv4 env in
  try_catch
    (for_actions executionId (wf_actions workflow) ;;;
     executionLog <- get_log ;;
     with_db (fun d =>
                (tt, updateExecution executionId
                       {| up_status := completed;
                          up_execution_log := Some executionLog;
                          up_error_message := None;
                          up_completed_at := Some (date_at_end env) |} d)) ;;;
     context <- get_own_context ;;
     ret {| success := true; execution_id := executionId;
            result_error := None; log := executionLog;
            context := Some context |})
    (fun error =>
       msg <- lift (read_message error) ;;
       lift (ToString rt msg) ;;;
       executionLog <- get_log ;;
       with_db (fun d =>
                  (tt, updateExecution executionId
                         {| up_status := failed;
                            up_execution_log := Some executionLog;
                            up_error_message := Some msg;
                            up_completed_at := Some (date_at_end env) |} d)) ;;;
       ret {| success := false; execution_id := executionId;
              result_error := Some msg; log := executionLog;
              context := None |})
    (start_of_run env workflow triggerData d w).

End Engine.

Arguments mkRun {W} _ _ _ _ _.
Arguments executeAction {W} _ _ _ _.
Arguments run_action {W} _ _ _ _ _.
Arguments for_actions {W} _ _ _ _ _.
Arguments seeded_context _ _ _ : assert.
Arguments start_of_run {W} _ _ _ _ _.
Arguments execute {W} _ _ _ _ _ _ _.
Arguments run_db {W} _.
Arguments run_world {W} _.
Arguments run_context {W} _.
Arguments run_inherited {W} _.
Arguments run_log {W} _.

(* ================================================================== *)
(** ** What one action does, stated apart from the loop *)
(* ================================================================== *)

(** Dispatching an action against a context, in a world: its
    configuration is resolved, and the handler found for its type is
    applied to the result. *)
Definition dispatch {W : Type} (rt : Runtime)
  (getHandler : string -> option (handler W)) (action : Action)
  (context : value) (w : W) : outcome value * W :=
  match resolveVariables rt (act_config action) context with
  | Returned config => executeAction getHandler (act_type action) config w
  | Raised e => (Raised e, w)
  end.

(** Performing an action: the dispatch, then the write of the result
    under the output key, when there is one.  It gives the result and
    the new context, or the exception that makes the step fail. *)
Definition perform {W : Type} (rt : Runtime)
  (getHandler : string -> option (handler W)) (action : Action)
  (own inherited : list (string * value)) (w : W)
  : outcome (value * (list (string * value) * list (string * value))) * W :=
  match dispatch rt getHandler action (view own inherited) w with
  | (Returned result, w') =>
      if truthy (act_output action) then
        match ToString rt (act_output action) with
        | Returned key =>
            (Returned (result, assign_context key result own inherited), w')
        | Raised e => (Raised e, w')
        end
      else (Returned (result, (own, inherited)), w')
  | (Raised e, w') => (Raised e, w')
  end.

(** The actions of a list are performed one after the other and none
    fails: the results, and the context and world at the end. *)
Inductive all_succeed {W : Type} (rt : Runtime)
  (getHandler : string -> option (handler W))
  : list Action -> list (string * value) -> list (string * value) -> W ->
    list value -> list (string * value) -> list (string * value) -> W -> Prop :=
| succeed_nil own inherited w :
    all_succeed rt getHandler [] own inherited w [] own inherited w
| succeed_cons a rest own inherited w result own1 inherited1 w1
    results own' inherited' w' :
    perform rt getHandler a own inherited w
    = (Returned (result, (own1, inherited1)), w1) ->
    all_succeed rt getHandler rest own1 inherited1 w1 results own' inherited' w' ->
    all_succeed rt getHandler (a :: rest) own inherited w
      (result :: results) own' inherited' w'.

(** What the [catch] of the loop makes of an exception: the message it
    records, or the exception it raises itself when the message cannot
    be read or printed. *)
Definition failure_report (rt : Runtime) (e : exn) : outcome value :=
  let? msg := read_message e in
  let? _ := ToString rt msg in
  Returned msg.

Definition completed_entry (action : Action) (result : value) : LogEntry :=
  {| step := act_id action; status := completed;
     output := Some result; error := None |}.

Definition failed_entry (action : Action) (msg : value) : LogEntry :=
  {| step := act_id action; status := failed;
     output := None; error := Some msg |}.

Definition completed_entries (actions : list Action) (results : list value)
  : list LogEntry :=
  map (fun ar => completed_entry (fst ar) (snd ar)) (combine actions results).

(** The row of execution_steps for an action, once its step is over. *)
Definition completed_row (id : nat) (executionId : string) (action : Action)
  (result : value) : StepRow :=
  {| st_id := id; st_execution_id := executionId;
     st_step_id := act_id action; st_step_type := act_type action;
     st_status := completed;
     st_input_data := json (or_empty_object (act_config action));
     st_output_data := Some (json (or_empty_object result));
     st_error_message := None |}.

Definition failed_row (id : nat) (executionId : string) (action : Action)
  (msg : value) : StepRow :=
  {| st_id := id; st_execution_id := executionId;
     st_step_id := act_id action; st_step_type := act_type action;
     st_status := failed;
     st_input_data := json (or_empty_object (act_config action));
     st_output_data := Some (VObj []);
     st_error_message := truthy_or_null (Some msg) |}.

(** The row of a step whose failure could not be recorded. *)
Definition running_row (id : nat) (executionId : string) (action : Action)
  : StepRow :=
  {| st_id := id; st_execution_id := executionId;
     st_step_id := act_id action; st_step_type := act_type action;
     st_status := running;
     st_input_data := json (or_empty_object (act_config action));
     st_output_data := None;
     st_error_message := None |}.

(** The rows of the actions of a list that all completed, the counter
    of row ids standing at [n] before the first. *)
Fixpoint completed_rows (n : nat) (executionId : string)
  (actions : list Action) (results : list value) : list StepRow :=
  match actions, results with
  | a :: actions', x :: results' =>
      completed_row (S n) executionId a x
      :: completed_rows (S n) executionId actions' results'
  | _, _ => []
  end.

(** The row ids in use do not exceed the AUTOINCREMENT counter. *)
Definition steps_below_sequence (d : Database) : Prop :=
  Forall (fun row => st_id row <= step_sequence d) (execution_steps d).

(* ================================================================== *)
(** ** Auxiliary definitions for the statements *)
(* ================================================================== *)

(** [resolveVariables] on the elements of an array and on the
    properties of an object. *)
Fixpoint resolve_items (rt : Runtime) (context : value) (l : list value)
  : outcome (list value) :=
  match l with
  | [] => Returned []
  | item :: rest =>
      let? y := resolveVariables rt item context in
      let? ys := resolve_items rt context rest in
      Returned (y :: ys)
  end.

Fixpoint resolve_entries (rt : Runtime) (context : value)
  (l : list (string * value)) (resolved : list (string * value))
  : outcome (list (string * value)) :=
  match l with
  | [] => Returned resolved
  | (key, v) :: rest =>
      let? y := resolveVariables rt v context in
      resolve_entries rt context rest (assign resolved key y)
  end.


(** The message of the configuration check for the action at
    position [i]. *)
Definition config_message (i : nat) : string :=
  "Action " ++ nat_to_string i ++ " must have config".

(** The configuration check as the specification words it: the message
    for position [i] is reported exactly when the configuration of that
    action is null or absent. *)
Definition config_check_is_a_null_check : Prop :=
  forall (workflow : value) (xs : list value) (r : ValidationResult)
         (i : nat) (action : value),
    Get workflow "actions" = VArr xs ->
    validateWorkflow workflow = Returned r ->
    nth_error xs i = Some action ->
    (In (config_message i) (errors r) <-> is_nullish (Get action "config") = true).

(** What the specification asks of an empty action sequence. *)
Definition empty_actions_are_invalid : Prop :=
  forall (workflow : value) (r : ValidationResult),
    Get workflow "actions" = VArr [] ->
    validateWorkflow workflow = Returned r ->
    valid r = false.

Fixpoint last_char (s : string) : option ascii :=
  match s with
  | "" => None
  | String c s' =>
      match last_char s' with
      | Some d => Some d
      | None => Some c
      end
  end.


(** The record of a failed step as the specification words it: the row
    of the failing action holds the error message. *)
Definition failed_step_holds_message : Prop :=
  forall (W : Type) (rt : Runtime) (getHandler : string -> option (handler W))
         (env : Env) (workflow : Workflow) (triggerData : value)
         (d : Database) (w : W) (pre post : list Action) (a : Action)
         (results : list value) (own inherited : list (string * value))
         (w_k w' : W) (e : exn) (m : string),
    wf_actions workflow = (pre ++ a :: post)%list ->
    steps_below_sequence d ->
    all_succeed rt getHandler pre
      (run_context (start_of_run env workflow triggerData d w)) [] w
      results own inherited w_k ->
    perform rt getHandler a own inherited w_k = (Raised e, w') ->
    read_message e = Returned (VStr m) ->
    exists row,
      In row (execution_steps
                (run_db (snd (execute rt getHandler env workflow triggerData d w))))
      /\ st_step_id row = act_id a
      /\ st_status row = failed
      /\ st_error_message row = Some (VStr m).


(** A registry for the examples: [echo] returns its configuration,
    [fail] throws an error, [silent] throws an error without message,
    [reject] throws undefined; each call is counted in the world. *)
Definition demo_registry (type : string) : option (handler nat) :=
  if type =? "echo" then Some (fun config n => (Returned config, S n))
  else if type =? "fail" then Some (fun _ n => (Raised (Error "boom"), S n))
  else if type =? "silent" then Some (fun _ n => (Raised (Error ""), S n))
  else if type =? "reject" then Some (fun _ n => (Raised (Thrown VUndefined), S n))
  else None.

Definition demo_env : Env :=
  {| uuidv4 := "run-1"; date_at_start := "2024-01-01T00:00:00.000Z";
     date_at_end := "2024-01-01T00:00:01.000Z" |}.

Definition empty_database : Database :=
  {| executions := []; execution_steps := []; step_sequence := 0 |}.

Definition demo_first : Action :=
  {| act_id := "a1"; act_type := "echo";
     act_config := VObj [("text", VStr "Hi {{trigger.name}}")];
     act_output := VStr "first" |}.

Definition demo_unknown : Action :=
  {| act_id := "a2"; act_type := "nonexistent";
     act_config := VObj []; act_output := VUndefined |}.

Definition demo_last : Action :=
  {| act_id := "a3"; act_type := "echo";
     act_config := VStr "{{first.text}}"; act_output := VStr "last" |}.

Definition demo_shadow : Action :=
  {| act_id := "a4"; act_type := "echo";
     act_config := VNum 7; act_output := VStr "trigger" |}.

Definition demo_workflow (actions : list Action) : Workflow :=
  {| wf_id := "wf-1"; wf_name := "Demo"; wf_actions := actions |}.

Definition demo_trigger : value := VObj [("name", VStr "Ana")].


Definition demo_silent : Action :=
  {| act_id := "s1"; act_type := "silent";
     act_config := VObj []; act_output := VUndefined |}.

Definition demo_reject : Action :=
  {| act_id := "r1"; act_type := "reject";
     act_config := VObj []; act_output := VUndefined |}.

Definition demo_proto : Action :=
  {| act_id := "p1"; act_type := "echo";
     act_config := VNum 7; act_output := VStr "__proto__" |}.

(* ================================================================== *)
(** ** Shapes of results *)
(* ================================================================== *)

(** [w] is [v] with every string replaced by its substitution: same
    scalars, same array lengths and order, same property names in the
    same order. *)
Inductive resolved_like (rt : Runtime) (context : value)
  : value -> value -> Prop :=
| like_undefined : resolved_like rt context VUndefined VUndefined
| like_null : resolved_like rt context VNull VNull
| like_bool b : resolved_like rt context (VBool b) (VBool b)
| like_num n : resolved_like rt context (VNum n) (VNum n)
| like_str s t :
    substituteString rt s context = Returned t ->
    resolved_like rt context (VStr s) (VStr t)
| like_arr xs ys :
    Forall2 (resolved_like rt context) xs ys ->
    resolved_like rt context (VArr xs) (VArr ys)
| like_obj fs gs :
    Forall2 (fun kv kv' =>
               fst kv = fst kv' /\ resolved_like rt context (snd kv) (snd kv'))
      fs gs ->
    resolved_like rt context (VObj fs) (VObj gs).

(** A property name that can be written as a one-segment path: not
    empty, without dot, closing brace or white space. *)
Fixpoint key_chars (s : string) : bool :=
  match s with
  | "" => true
  | String c s' =>
      negb (Ascii.eqb c ".") && negb (Ascii.eqb c "}") && negb (is_space c)
      && key_chars s'
  end.

Definition simple_key (k : string) : bool := negb (k =? "") && key_chars k.

(** The definitions on which every property read of [validateWorkflow]
    is defined: the workflow is not null or undefined, and [actions] is
    falsy or an array without null or undefined elements. *)
Definition well_shaped (workflow : value) : bool :=
  negb (is_nullish workflow)
  && match Get workflow "actions" with
     | VArr xs => forallb (fun a => negb (is_nullish a)) xs
     | v => negb (truthy v)
     end.

(** All the messages due to a definition, in the order of the checks. *)
Definition expected_errors (workflow : value) : list string :=
  List.app (workflow_checks workflow)
    match Get workflow "actions" with
    | VArr xs => actions_checks 0 xs
    | _ => []
    end.

Definition action_complete (action : value) : Prop :=
  truthy (Get action "id") = true
  /\ truthy (Get action "type") = true
  /\ truthy (Get action "config") = true.


(** What the resolver builds: distinct names, none of them
    [__proto__], at every depth. *)
Definition well_keyed (v : value) : Prop := normal v /\ plain_keys v = true.

(* ================================================================== *)
(** ** Facts about the string primitives *)
(* ================================================================== *)

Lemma append_assoc (a b c : string) : (a ++ b) ++ c = a ++ b ++ c.
Proof. induction a as [|x a IH]; simpl; [reflexivity | now rewrite IH]. Qed.

Lemma append_empty_r (a : string) : a ++ "" = a.
Proof. induction a as [|x a IH]; simpl; [reflexivity | now rewrite IH]. Qed.

Lemma length_append (a b : string) :
  String.length (a ++ b) = String.length a + String.length b.
Proof. induction a as [|x a IH]; simpl; [reflexivity | now rewrite IH]. Qed.

Lemma split_not_nil (sep : ascii) (s : string) : split sep s <> [].
Proof.
  destruct s as [|c s]; simpl; [discriminate|].
  destruct (Ascii.eqb c sep); [discriminate|].
  destruct (split sep s); discriminate.
Qed.

Lemma take_path_token (p rest : string) :
  no_close p = true ->
  take_path (p ++ "}}" ++ rest) = (p, "}}" ++ rest).
Proof.
  change ("}}" ++ rest) with (String "}" (String "}" rest)).
  induction p as [|c p IH]; simpl; intros H; [reflexivity|].
  apply andb_true_iff in H as [Hc Hp].
  apply negb_true_iff in Hc. rewrite Hc, (IH Hp). reflexivity.
Qed.

Lemma match_token_occurrence (p rest : string) :
  p <> "" -> no_close p = true ->
  match_token ("{{" ++ p ++ "}}" ++ rest) = Some p.
Proof.
  intros Hne Hp.
  change ("{{" ++ p ++ "}}" ++ rest)
    with (String "{" (String "{" (p ++ "}}" ++ rest))).
  unfold match_token. rewrite (take_path_token p rest Hp).
  destruct p; [congruence | reflexivity].
Qed.

Lemma match_token_head (s : string) (p : string) :
  match_token s = Some p -> exists t, s = "{{" ++ t.
Proof.
  destruct s as [|a s]; [discriminate|].
  destruct s as [|b s]; simpl.
  - destruct a as [[] [] [] [] [] [] [] []]; discriminate.
  - destruct a as [[] [] [] [] [] [] [] []]; try discriminate.
    destruct b as [[] [] [] [] [] [] [] []]; try discriminate.
    intros _. now exists s.
Qed.

Lemma no_open_no_match (c : ascii) (s : string) :
  no_open (String c s) = true ->
  match_token (String c s) = None /\ no_open s = true.
Proof.
  intros H. split.
  - destruct (match_token (String c s)) as [p|] eqn:E; [|reflexivity].
    apply match_token_head in E as [t Et]. inversion Et; subst.
    simpl in H. discriminate.
  - simpl in H. destruct s as [|b s]; [reflexivity|].
    destruct c as [[] [] [] [] [] [] [] []];
      try exact H.
    destruct b as [[] [] [] [] [] [] [] []];
      try exact H; discriminate.
Qed.




Section Replace.
Variable f : string -> string -> outcome string.

Lemma replace_tokens_skip (x rest : string) :
  replace_tokens f (String.length x) (x ++ rest) = replace_tokens f 0 rest.
Proof. induction x as [|c x IH]; simpl; [reflexivity | exact IH]. Qed.

Lemma replace_tokens_match (c : ascii) (s p : string) :
  match_token (String c s) = Some p ->
  replace_tokens f 0 (String c s)
  = (let? t := f ("{{" ++ p ++ "}}") p in
     let? r := replace_tokens f (3 + String.length p) s in
     Returned (t ++ r)).
Proof. intros H. cbn [replace_tokens]. now rewrite H. Qed.

Lemma replace_tokens_char (c : ascii) (s : string) :
  match_token (String c s) = None ->
  replace_tokens f 0 (String c s)
  = (let? r := replace_tokens f 0 s in Returned (String c r)).
Proof. intros H. cbn [replace_tokens]. now rewrite H. Qed.

Lemma replace_tokens_no_open (s : string) :
  no_open s = true -> replace_tokens f 0 s = Returned s.
Proof.
  induction s as [|c s IH]; intros H; [reflexivity|].
  destruct (no_open_no_match c s H) as [Hm Hs].
  rewrite (replace_tokens_char c s Hm), (IH Hs). reflexivity.
Qed.

Lemma replace_tokens_token (p post : string) :
  p <> "" -> no_close p = true ->
  replace_tokens f 0 ("{{" ++ p ++ "}}" ++ post)
  = (let? t := f ("{{" ++ p ++ "}}") p in
     let? r := replace_tokens f 0 post in
     Returned (t ++ r)).
Proof.
  intros Hne Hp.
  pose proof (match_token_occurrence p post Hne Hp) as Hm.
  change ("{{" ++ p ++ "}}" ++ post)
    with (String "{" (String "{" (p ++ "}}" ++ post))) in *.
  rewrite (replace_tokens_match _ _ _ Hm).
  assert (E : String "{" (p ++ "}}" ++ post) = ("{" ++ p ++ "}}") ++ post)
    by (simpl; now rewrite append_assoc).
  assert (L : 3 + String.length p = String.length ("{" ++ p ++ "}}"))
    by (simpl; rewrite length_append; simpl; lia).
  rewrite E, L, replace_tokens_skip. reflexivity.
Qed.
End Replace.

(* ================================================================== *)
(** ** Facts about the resolver *)
(* ================================================================== *)

Lemma nested_step_undefined (segs : list string) :
  fold_left
    (fun current key =>
       match current with
       | Data v =>
           if truthy v then
             if has_own v key then Data (Get v key) else Builtin v [key]
           else Data VUndefined
       | Builtin v segs => Builtin v (segs ++ [key])%list
       end)
    segs (Data VUndefined) = Data VUndefined.
Proof. induction segs as [|k r IH]; simpl; [reflexivity | exact IH]. Qed.

Lemma nested_step_builtin (segs : list string) :
  forall v done,
    fold_left
      (fun current key =>
         match current with
         | Data v =>
             if truthy v then
               if has_own v key then Data (Get v key) else Builtin v [key]
             else Data VUndefined
         | Builtin v segs => Builtin v (segs ++ [key])%list
         end)
      segs (Builtin v done) = Builtin v (done ++ segs)%list.
Proof.
  induction segs as [|k r IH]; intros v done; simpl.
  - now rewrite app_nil_r.
  - rewrite IH, <- app_assoc. reflexivity.
Qed.

Lemma getNestedValue_walk (obj : value) (path : string) :
  getNestedValue obj path = walk obj (split "." path).
Proof.
  unfold getNestedValue. generalize (split "." path) as segs. revert obj.
  intros obj segs. revert obj.
  induction segs as [|k r IH]; intros obj; [reflexivity|].
  simpl. destruct (truthy obj).
  - destruct (has_own obj k); [apply IH | apply nested_step_builtin].
  - apply nested_step_undefined.
Qed.

Lemma substitute_replacement (rt : Runtime) (context : value) (p : string) :
  substitute rt context ("{{" ++ p ++ "}}") p = replacement rt context p.
Proof.
  unfold substitute, replacement. rewrite getNestedValue_walk.
  destruct (walk context (split "." (trim p))) as [v|v segs]; [|reflexivity].
  destruct (is_undefined v); reflexivity.
Qed.

Lemma substituteString_token (rt : Runtime) (context : value) (p post : string) :
  p <> "" -> no_close p = true ->
  substituteString rt ("{{" ++ p ++ "}}" ++ post) context
  = (let? t := replacement rt context p in
     let? r := substituteString rt post context in
     Returned (t ++ r)).
Proof.
  intros Hne Hp. unfold substituteString.
  rewrite (replace_tokens_token _ p post Hne Hp), substitute_replacement.
  reflexivity.
Qed.


Lemma substituteString_no_open (rt : Runtime) (s : string) (context : value) :
  no_open s = true -> substituteString rt s context = Returned s.
Proof. apply replace_tokens_no_open. Qed.


Example resolve_hello :
  substituteString bare_runtime "Hello {{trigger.name}}"
    (VObj [("trigger", VObj [("name", VStr "John")])]) = Returned "Hello John".
Proof. reflexivity. Qed.

Example resolve_unresolved :
  substituteString bare_runtime "{{a.b}}" (VObj []) = Returned "{{a.b}}".
Proof. reflexivity. Qed.

Example resolve_shape :
  resolveVariables bare_runtime
    (VObj [("greet", VStr "Hi {{trigger.name}}");
           ("tags", VArr [VStr "{{ trigger.name }}"; VStr "static"])])
    (VObj [("trigger", VObj [("name", VStr "Ana")])])
  = Returned
      (VObj [("greet", VStr "Hi Ana"); ("tags", VArr [VStr "Ana"; VStr "static"])]).
Proof. reflexivity. Qed.

Example resolve_length :
  substituteString bare_runtime "{{a.length}}/{{b.length}}/{{c.1}}/{{d}}/{{e}}"
    (VObj [("a", VStr "John"); ("b", VStr ""); ("c", VArr [VNum 7; VNum (-8)]);
           ("d", VBool false); ("e", VArr [VNum 1; VNull; VObj []])])
  = Returned "4/{{b.length}}/-8/false/1,,[object Object]".
Proof. reflexivity. Qed.

Example resolve_own_toString :
  substituteString bare_runtime "{{a}}" (VObj [("a", VObj [("toString", VNum 1)])])
  = Raised (TypeError "Cannot convert object to primitive value").
Proof. reflexivity. Qed.

(** *** Rebuilding an object property by property *)

Lemma obj_set_fresh (fs : list (string * value)) (k : string) (v : value) :
  ~ In k (map fst fs) -> obj_set fs k v = (fs ++ [(k, v)])%list.
Proof.
  induction fs as [|[k' x] r IH]; simpl; intros H; [reflexivity|].
  destruct (String.eqb_spec k' k) as [->|Hk].
  - exfalso. apply H. now left.
  - rewrite IH; [reflexivity|]. intros Hin. apply H. now right.
Qed.

Lemma obj_set_keys_in (fs : list (string * value)) (k : string) (v : value) :
  In k (map fst fs) -> map fst (obj_set fs k v) = map fst fs.
Proof.
  induction fs as [|[k' x] r IH]; simpl; intros H; [contradiction|].
  destruct (String.eqb_spec k' k) as [->|Hk]; simpl; [reflexivity|].
  f_equal. apply IH. destruct H as [H|H]; [congruence | exact H].
Qed.

Lemma obj_set_NoDup (fs : list (string * value)) (k : string) (v : value) :
  NoDup (map fst fs) -> NoDup (map fst (obj_set fs k v)).
Proof.
  intros H. destruct (in_dec string_dec k (map fst fs)) as [Hin|Hout].
  - now rewrite obj_set_keys_in.
  - rewrite (obj_set_fresh _ _ _ Hout), map_app. simpl.
    apply NoDup_app; [exact H | repeat constructor; intros [] | ].
    intros a Ha [<-|[]]. exact (Hout Ha).
Qed.

Lemma obj_set_Forall (P : string * value -> Prop) (fs : list (string * value))
  (k : string) (v : value) :
  Forall P fs -> (forall k', P (k', v)) -> Forall P (obj_set fs k v).
Proof.
  intros H Hv. induction H as [|[k' x] r Hx Hr IH]; simpl.
  - constructor; [apply Hv | constructor].
  - destruct (k' =? k); constructor; auto.
Qed.

Lemma resolveVariables_array (rt : Runtime) (xs : list value) (context : value) :
  resolveVariables rt (VArr xs) context
  = (let? ys := resolve_items rt context xs in Returned (VArr ys)).
Proof.
  cbn [resolveVariables].
  match goal with
  | |- obind ?m _ = _ => assert (E : m = resolve_items rt context xs)
  end.
  { induction xs as [|x l IH]; [reflexivity|].
    cbn [resolve_items]. rewrite <- IH. reflexivity. }
  now rewrite E.
Qed.

Lemma resolveVariables_object (rt : Runtime) (fs : list (string * value))
  (context : value) :
  resolveVariables rt (VObj fs) context
  = (let? resolved := resolve_entries rt context fs [] in Returned (VObj resolved)).
Proof.
  cbn [resolveVariables].
  match goal with
  | |- obind (?f fs []) _ = _ => set (m := f)
  end.
  assert (E : forall l acc, m l acc = resolve_entries rt context l acc).
  { induction l as [|[k x] l IH]; intros acc; [reflexivity|].
    change (obind (resolveVariables rt x context)
              (fun y => m l (assign acc k y))
            = resolve_entries rt context ((k, x) :: l) acc).
    cbn [resolve_entries].
    destruct (resolveVariables rt x context); cbn [obind];
      [apply IH | reflexivity]. }
  now rewrite E.
Qed.

Lemma obj_set_Forall_key (P : string * value -> Prop)
  (fs : list (string * value)) (k : string) (v : value) :
  Forall P fs -> P (k, v) -> Forall P (obj_set fs k v).
Proof.
  intros H Hv. induction H as [|[k' x] r Hx Hr IH]; simpl.
  - constructor; [exact Hv | constructor].
  - destruct (String.eqb_spec k' k) as [->|Hk]; constructor; auto.
Qed.

Lemma well_keyed_obj (fs : list (string * value)) :
  well_keyed (VObj fs)
  <-> NoDup (map fst fs)
      /\ Forall (fun kv => fst kv <> "__proto__" /\ well_keyed (snd kv)) fs.
Proof.
  unfold well_keyed. split.
  - intros [Hn Hp]. inversion Hn as [| | | | | |? Hnd Hfs]; subst.
    split; [exact Hnd|]. simpl in Hp. rewrite forallb_forall in Hp.
    rewrite Forall_forall in Hfs. apply Forall_forall. intros [k x] Hin.
    specialize (Hp _ Hin). specialize (Hfs _ Hin). simpl in *.
    apply andb_true_iff in Hp as [Hk Hx].
    apply negb_true_iff, String.eqb_neq in Hk. auto.
  - intros [Hnd Hfs]. split.
    + constructor; [exact Hnd|]. eapply Forall_impl; [|exact Hfs].
      intros kv [_ [Hn _]]. exact Hn.
    + simpl. apply forallb_forall. intros [k x] Hin.
      rewrite Forall_forall in Hfs. destruct (Hfs _ Hin) as [Hk [_ Hx]].
      simpl in *. apply andb_true_iff. split; [|exact Hx].
      now apply negb_true_iff, String.eqb_neq.
Qed.

Lemma well_keyed_arr (xs : list value) :
  well_keyed (VArr xs) <-> Forall well_keyed xs.
Proof.
  unfold well_keyed. split.
  - intros [Hn Hp]. inversion Hn as [| | | | |? Hxs|]; subst.
    simpl in Hp. rewrite forallb_forall in Hp. rewrite Forall_forall in Hxs.
    apply Forall_forall. intros x Hin. split; auto.
  - intros H. split.
    + constructor. eapply Forall_impl; [|exact H]. now intros x [Hn _].
    + simpl. apply forallb_forall. intros x Hin.
      rewrite Forall_forall in H. now destruct (H x Hin).
Qed.

Section ResolverShape.
Variable rt : Runtime.
Variable context : value.

Lemma assign_well_keyed (acc : list (string * value)) (k : string) (y : value) :
  NoDup (map fst acc) ->
  Forall (fun kv => fst kv <> "__proto__" /\ well_keyed (snd kv)) acc ->
  well_keyed y ->
  NoDup (map fst (assign acc k y))
  /\ Forall (fun kv => fst kv <> "__proto__" /\ well_keyed (snd kv))
       (assign acc k y).
Proof.
  intros Hnd Hacc Hy. unfold assign.
  destruct (String.eqb_spec k "__proto__") as [->|Hk]; [now split|].
  split; [now apply obj_set_NoDup|].
  apply obj_set_Forall_key; [exact Hacc | now split].
Qed.

Lemma resolve_entries_well_keyed (l : list (string * value)) :
  Forall (fun kv => forall y, resolveVariables rt (snd kv) context = Returned y ->
                              well_keyed y) l ->
  forall acc r,
    NoDup (map fst acc) ->
    Forall (fun kv => fst kv <> "__proto__" /\ well_keyed (snd kv)) acc ->
    resolve_entries rt context l acc = Returned r ->
    NoDup (map fst r)
    /\ Forall (fun kv => fst kv <> "__proto__" /\ well_keyed (snd kv)) r.
Proof.
  induction 1 as [|[k x] l Hx Hl IH]; intros acc r Hnd Hacc H; simpl in H.
  - inversion H; subst. now split.
  - destruct (resolveVariables rt x context) as [y|e] eqn:E; [|discriminate].
    cbn [obind] in H.
    destruct (assign_well_keyed acc k y Hnd Hacc (Hx y E)) as [Hnd' Hacc'].
    exact (IH _ _ Hnd' Hacc' H).
Qed.

Lemma resolveVariables_well_keyed (v : value) :
  forall r, resolveVariables rt v context = Returned r -> well_keyed r.
Proof.
  induction v as [| | | | s |xs IH|fs IH] using value_nested_ind; intros r H;
    try (inversion H; subst; split; [constructor | reflexivity]; fail).
  - simpl in H. destruct (substituteString rt s context); [|discriminate].
    inversion H; subst. split; [constructor | reflexivity].
  - rewrite resolveVariables_array in H.
    destruct (resolve_items rt context xs) as [ys|e] eqn:E; [|discriminate].
    inversion H; subst. apply well_keyed_arr.
    clear H. revert ys E. induction IH as [|x l Hx Hl IHl]; intros ys E; simpl in E.
    + inversion E; subst. constructor.
    + destruct (resolveVariables rt x context) as [y|e] eqn:Ey; [|discriminate].
      destruct (resolve_items rt context l) as [ys'|e] eqn:El; [|discriminate].
      inversion E; subst. constructor; [now apply Hx | now apply IHl].
  - rewrite resolveVariables_object in H.
    destruct (resolve_entries rt context fs []) as [gs|e] eqn:E; [|discriminate].
    inversion H; subst. apply well_keyed_obj.
    apply (resolve_entries_well_keyed fs IH [] gs); [constructor | constructor | exact E].
Qed.

Lemma resolve_entries_fixed (l : list (string * value)) :
  forall acc,
    NoDup (map fst acc ++ map fst l) ->
    Forall (fun kv => fst kv <> "__proto__"
                      /\ resolveVariables rt (snd kv) context = Returned (snd kv)) l ->
    resolve_entries rt context l acc = Returned (acc ++ l)%list.
Proof.
  induction l as [|[k x] l IH]; intros acc Hnd Hl; simpl.
  - now rewrite app_nil_r.
  - inversion Hl as [|? ? [Hk Hx] Hl']; subst. simpl in Hk, Hx. rewrite Hx.
    cbn [obind]. unfold assign.
    destruct (String.eqb_spec k "__proto__"); [contradiction|].
    simpl in Hnd. pose proof (NoDup_remove_2 _ _ _ Hnd) as Hfresh.
    rewrite obj_set_fresh
      by (intros Hin; apply Hfresh; apply in_or_app; now left).
    rewrite IH; [now rewrite <- app_assoc | | exact Hl'].
    rewrite map_app, <- app_assoc. exact Hnd.
Qed.

Lemma resolveVariables_fixed (w : value) :
  well_keyed w -> no_open_value w = true ->
  resolveVariables rt w context = Returned w.
Proof.
  induction w as [| | | | s |xs IH|fs IH] using value_nested_ind;
    intros Hw Ho; try reflexivity.
  - simpl in *. now rewrite substituteString_no_open.
  - rewrite resolveVariables_array. apply well_keyed_arr in Hw.
    assert (E : resolve_items rt context xs = Returned xs).
    { simpl in Ho. clear - IH Hw Ho.
      induction IH as [|x l Hx Hl IHl]; [reflexivity|].
      simpl in Ho. apply andb_true_iff in Ho as [Ho1 Ho2].
      inversion Hw; subst. simpl. rewrite Hx by assumption.
      cbn [obind]. rewrite IHl by assumption. reflexivity. }
    now rewrite E.
  - rewrite resolveVariables_object. apply well_keyed_obj in Hw as [Hnd Hfs].
    rewrite (resolve_entries_fixed fs []); [reflexivity | exact Hnd |].
    simpl in Ho. clear Hnd.
    induction IH as [|[k x] l Hx Hl IHl]; [constructor|].
    simpl in Ho. apply andb_true_iff in Ho as [Ho1 Ho2].
    inversion Hfs as [|? ? [Hk Hwx] Hfs']; subst.
    constructor; [split; [exact Hk | now apply Hx] | now apply IHl].
Qed.
End ResolverShape.

(* ================================================================== *)
(** ** Properties of the resolver *)
(* ================================================================== *)




(** C6.  Resolving again a value whose resolution has left no [{{] text
    in any of its strings gives that same value. *)
Theorem resolution_idempotent (rt : Runtime) (v context r : value) :
  resolveVariables rt v context = Returned r ->
  no_open_value r = true ->
  resolveVariables rt r context = Returned r.
Proof.
  intros H Ho. apply resolveVariables_fixed; [|exact Ho].
  exact (resolveVariables_well_keyed rt context v r H).
Qed.

Lemma resolution_idempotent_witness :
  let v := VObj [("greet", VStr "Hi {{trigger.name}}");
                 ("tags", VArr [VStr "{{trigger.name}}"; VNum 3; VNull])] in
  let context := VObj [("trigger", VObj [("name", VStr "Ana")])] in
  let r := VObj [("greet", VStr "Hi Ana");
                 ("tags", VArr [VStr "Ana"; VNum 3; VNull])] in
  resolveVariables bare_runtime r context = Returned r.
Proof.
  intros v context r.
  apply (resolution_idempotent bare_runtime v context r); reflexivity.
Defined.

(* ================================================================== *)
(** ** Facts about the validator *)
(* ================================================================== *)

Lemma append_inj_l (s x y : string) : x ++ s = y ++ s -> x = y.
Proof.
  intros H.
  assert (L : String.length x = String.length y).
  { apply (f_equal String.length) in H. rewrite !length_append in H. lia. }
  revert y H L. induction x as [|c x IH]; intros [|d y] H L;
    simpl in *; try discriminate; [reflexivity|].
  inversion H; subst. f_equal. apply IH; [assumption | lia].
Qed.

Lemma last_char_append (x s : string) :
  s <> "" -> last_char (x ++ s) = last_char s.
Proof.
  intros Hs. induction x as [|c x IH]; simpl; [reflexivity|].
  rewrite IH. destruct s as [|d s]; [congruence|].
  simpl. destruct (last_char s); reflexivity.
Qed.

Lemma nat_to_string_inj (i j : nat) : nat_to_string i = nat_to_string j -> i = j.
Proof.
  unfold nat_to_string. intros H.
  apply (f_equal NilEmpty.uint_of_string) in H.
  rewrite !NilEmpty.usu in H. inversion H as [H'].
  apply (f_equal Nat.of_uint) in H'.
  now rewrite !DecimalNat.Unsigned.of_to in H'.
Qed.

Lemma config_message_inj (i j : nat) : config_message i = config_message j -> i = j.
Proof.
  unfold config_message. intros H. simpl in H.
  injection H as H. apply append_inj_l in H. now apply nat_to_string_inj.
Qed.

Lemma config_message_last (i : nat) : last_char (config_message i) = Some "g"%char.
Proof.
  unfold config_message.
  change ("Action " ++ nat_to_string i ++ " must have config")
    with ("Action " ++ (nat_to_string i ++ " must have config")).
  rewrite !last_char_append; [reflexivity | discriminate |].
  destruct (nat_to_string i); discriminate.
Qed.

Lemma config_message_in_action_checks (i j : nat) (a : value) :
  In (config_message i) (action_checks j a)
  <-> i = j /\ truthy (Get a "config") = false.
Proof.
  unfold action_checks. rewrite !in_app_iff. split.
  - intros [H|[H|H]].
    + destruct (truthy (Get a "id")); [contradiction|].
      destruct H as [H|[]]. apply (f_equal last_char) in H.
      rewrite config_message_last in H.
      change ("Action " ++ nat_to_string j ++ " must have an id")
        with ("Action " ++ (nat_to_string j ++ " must have an id")) in H.
      rewrite !last_char_append in H; try discriminate.
      destruct (nat_to_string j); discriminate.
    + destruct (truthy (Get a "type")); [contradiction|].
      destruct H as [H|[]]. apply (f_equal last_char) in H.
      rewrite config_message_last in H.
      change ("Action " ++ nat_to_string j ++ " must have a type")
        with ("Action " ++ (nat_to_string j ++ " must have a type")) in H.
      rewrite !last_char_append in H; try discriminate.
      destruct (nat_to_string j); discriminate.
    + destruct (truthy (Get a "config")); [contradiction|].
      destruct H as [H|[]]. split; [|reflexivity].
      symmetry. now apply config_message_inj.
  - intros [-> Hc]. right. right. rewrite Hc. now left.
Qed.

Lemma in_actions_checks (m : string) (xs : list value) :
  forall i,
    In m (actions_checks i xs)
    <-> exists j a, nth_error xs j = Some a /\ In m (action_checks (i + j) a).
Proof.
  induction xs as [|x r IH]; intros i; simpl.
  - split; [contradiction|]. intros (j & a & H & _). destruct j; discriminate.
  - rewrite in_app_iff, IH. split.
    + intros [H|(j & a & Hj & Hin)].
      * exists 0, x. rewrite Nat.add_0_r. now split.
      * exists (S j), a. rewrite Nat.add_succ_r. now split.
    + intros (j & a & Hj & Hin). destruct j as [|j]; simpl in Hj.
      * inversion Hj; subst. rewrite Nat.add_0_r in Hin. now left.
      * right. exists j, a. rewrite Nat.add_succ_r in Hin. now split.
Qed.

Lemma config_message_not_workflow_level (i : nat) (workflow : value) :
  ~ In (config_message i) (workflow_checks workflow).
Proof.
  unfold workflow_checks. rewrite !in_app_iff.
  intros [H|[H|H]];
    match type of H with In _ (if ?b then _ else _) => destruct b end;
    try contradiction; destruct H as [H|[]]; discriminate.
Qed.

Lemma member_defined (v : value) (key : string) :
  is_nullish v = false -> member v key = Returned (Get v key).
Proof. destruct v; simpl; intros H; try discriminate; reflexivity. Qed.

Lemma push_unless_app (v : value) (msg : string) (errors : list string) :
  push_unless v msg errors = (errors ++ (if truthy v then [] else [msg]))%list.
Proof. unfold push_unless. destruct (truthy v); [now rewrite app_nil_r | reflexivity]. Qed.

Lemma forEach_action_checks (xs : list value) :
  Forall (fun a => is_nullish a = false) xs ->
  forall i errors,
    forEach_action xs i errors = Returned (errors ++ actions_checks i xs)%list.
Proof.
  induction 1 as [|a r Ha Hr IH]; intros i errors; simpl.
  - now rewrite app_nil_r.
  - rewrite !(member_defined a _ Ha). simpl.
    rewrite IH, !push_unless_app. unfold action_checks.
    now rewrite <- !app_assoc.
Qed.

Lemma Get_defined_not_nullish (v : value) (key : string) (x : value) :
  Get v key = x -> x <> VUndefined -> is_nullish v = false.
Proof. destruct v; simpl; intros H Hx; congruence. Qed.

(** On a definition whose [actions] is an array of objects, the result
    lists the messages of all the checks that fail, none left out. *)
Lemma validateWorkflow_collects (workflow : value) (xs : list value) :
  Get workflow "actions" = VArr xs ->
  Forall (fun a => is_nullish a = false) xs ->
  validateWorkflow workflow
  = Returned
      {| valid := Nat.eqb (List.length (workflow_checks workflow
                                        ++ actions_checks 0 xs)%list) 0;
         errors := (workflow_checks workflow ++ actions_checks 0 xs)%list |}.
Proof.
  intros Ha Hxs.
  assert (Hw : is_nullish workflow = false)
    by (apply (Get_defined_not_nullish _ _ _ Ha); discriminate).
  unfold validateWorkflow.
  rewrite !(member_defined workflow _ Hw). cbn [obind].
  rewrite Ha. cbn [truthy isArray negb orb].
  rewrite (forEach_action_checks xs Hxs). cbn [obind].
  rewrite !push_unless_app. unfold workflow_checks. rewrite Ha.
  cbn [isArray app]. rewrite !app_nil_r. reflexivity.
Qed.

(** A truthy [actions] that is not an array passes the guard of the
    loop and has no [forEach]. *)
Lemma validateWorkflow_raises (workflow : value) :
  is_nullish workflow = false ->
  truthy (Get workflow "actions") = true ->
  isArray (Get workflow "actions") = false ->
  validateWorkflow workflow
  = Raised (TypeError "workflow.actions.forEach is not a function").
Proof.
  intros Hw Ht Ha. unfold validateWorkflow.
  rewrite !(member_defined workflow _ Hw). cbn [obind].
  rewrite Ht. destruct (Get workflow "actions"); try discriminate; reflexivity.
Qed.

Example validate_three_messages :
  validateWorkflow
    (VObj [("actions", VArr [VObj [("id", VStr "a1"); ("config", VObj [])]])])
  = Returned
      {| valid := false;
         errors := ["Workflow must have an id"; "Workflow must have a name";
                    "Action 0 must have a type"] |}.
Proof. reflexivity. Qed.

Lemma falsy_values (v : value) :
  truthy v = false
  <-> v = VUndefined \/ v = VNull \/ v = VBool false \/ v = VNum 0 \/ v = VStr "".
Proof.
  split.
  - destruct v as [| |b|n|s|xs|fs]; simpl; intros H; try discriminate; auto.
    + subst b. auto.
    + apply negb_false_iff, Z.eqb_eq in H. subst n. auto 6.
    + apply negb_false_iff, String.eqb_eq in H. subst s. auto 6.
  - intros [H|[H|[H|[H|H]]]]; subst v; reflexivity.
Qed.

(* ================================================================== *)
(** ** Properties of the validator *)
(* ================================================================== *)

(** C7.  A definition whose [actions] is an object: the check of the
    actions array fails and its message is due, but the loop over the
    actions is entered all the same and raises; no result is returned. *)
Theorem validate_raises_on_object_actions :
  let workflow :=
    VObj [("id", VStr "wf-1"); ("name", VStr "Demo"); ("actions", VObj [])] in
  workflow_checks workflow = ["Workflow must have an actions array"]
  /\ validateWorkflow workflow
     = Raised (TypeError "workflow.actions.forEach is not a function").
Proof. split; reflexivity. Qed.

(** C8, as the code has it.  On a definition whose action sequence is
    present and empty the validator reports the id and name checks and
    nothing else: the definition is valid exactly when its id and its
    name are truthy. *)
Theorem validate_empty_actions (workflow : value) :
  Get workflow "actions" = VArr [] ->
  validateWorkflow workflow
  = Returned
      {| valid := truthy (Get workflow "id") && truthy (Get workflow "name");
         errors :=
           ((if truthy (Get workflow "id") then []
             else ["Workflow must have an id"])
            ++ (if truthy (Get workflow "name") then []
                else ["Workflow must have a name"]))%list |}.
Proof.
  intros Ha.
  rewrite (validateWorkflow_collects workflow [] Ha (Forall_nil _)).
  unfold workflow_checks. rewrite Ha. cbn [actions_checks isArray].
  rewrite !app_nil_r.
  destruct (truthy (Get workflow "id")), (truthy (Get workflow "name"));
    reflexivity.
Qed.

Lemma validate_empty_actions_witness :
  validateWorkflow (VObj [("id", VStr "wf-1"); ("actions", VArr [])])
  = Returned {| valid := false; errors := ["Workflow must have a name"] |}.
Proof.
  exact (validate_empty_actions
           (VObj [("id", VStr "wf-1"); ("actions", VArr [])]) eq_refl).
Defined.

(** C8 as the specification words it fails: a definition with an id, a
    name and an empty action sequence is reported valid. *)
Lemma empty_actions_accepted : ~ empty_actions_are_invalid.
Proof.
  intros H.
  specialize (H (VObj [("id", VStr "wf-1"); ("name", VStr "Demo");
                       ("actions", VArr [])])
                {| valid := true; errors := [] |} eq_refl eq_refl).
  discriminate.
Qed.

(** C9, as the code has it.  For a definition whose [actions] is an
    array of objects, the message of the configuration check for
    position [i] is reported exactly when the configuration of that
    action is falsy: absent, null, false, 0 or the empty string. *)
Theorem config_check_is_a_truthiness_check :
  (forall (workflow : value) (xs : list value),
      Get workflow "actions" = VArr xs ->
      Forall (fun a => is_nullish a = false) xs ->
      exists r,
        validateWorkflow workflow = Returned r
        /\ forall i action,
            nth_error xs i = Some action ->
            (In (config_message i) (errors r)
             <-> truthy (Get action "config") = false))
  /\ (forall v,
         truthy v = false
         <-> v = VUndefined \/ v = VNull \/ v = VBool false
             \/ v = VNum 0 \/ v = VStr "").
Proof.
  split; [|exact falsy_values].
  intros workflow xs Ha Hxs. eexists. split.
  - exact (validateWorkflow_collects workflow xs Ha Hxs).
  - intros i action Hi. cbn [errors]. rewrite in_app_iff, in_actions_checks. split.
    + intros [H|(j & a & Hj & Hin)].
      * exfalso. exact (config_message_not_workflow_level _ _ H).
      * apply config_message_in_action_checks in Hin as [Hij Hc].
        simpl in Hij. subst j. rewrite Hi in Hj. inversion Hj; subst a.
        exact Hc.
    + intros Hc. right. exists i, action. split; [exact Hi|].
      apply config_message_in_action_checks. now split.
Qed.

Lemma config_check_is_a_truthiness_check_witness :
  exists r,
    validateWorkflow
      (VObj [("id", VStr "wf-1"); ("name", VStr "Demo");
             ("actions",
              VArr [VObj [("id", VStr "a"); ("type", VStr "log");
                          ("config", VBool false)]])])
    = Returned r
    /\ forall i action,
        nth_error [VObj [("id", VStr "a"); ("type", VStr "log");
                         ("config", VBool false)]] i = Some action ->
        (In (config_message i) (errors r)
         <-> truthy (Get action "config") = false).
Proof.
  apply (proj1 config_check_is_a_truthiness_check).
  - reflexivity.
  - repeat constructor.
Defined.

(** C9 as the specification words it fails: a configuration that is the
    number 0 is not null, and its action is reported as having no
    configuration. *)
Lemma zero_config_reported_missing : ~ config_check_is_a_null_check.
Proof.
  intros H.
  pose (action := VObj [("id", VStr "a"); ("type", VStr "log"); ("config", VNum 0)]).
  specialize (H (VObj [("id", VStr "wf-1"); ("name", VStr "Demo");
                       ("actions", VArr [action])])
                [action]
                {| valid := false; errors := ["Action 0 must have config"] |}
                0 action eq_refl eq_refl eq_refl).
  destruct H as [H _]. specialize (H (or_introl eq_refl)). discriminate.
Qed.

(* ================================================================== *)
(** ** Further properties of the validator *)
(* ================================================================== *)

Lemma forEach_action_raises (xs : list value) :
  forallb (fun a => negb (is_nullish a)) xs = false ->
  forall i errors, exists m, forEach_action xs i errors = Raised (TypeError m).
Proof.
  induction xs as [|a r IH]; intros H i errors; [discriminate|].
  simpl in H. destruct (is_nullish a) eqn:Ha.
  - destruct a; try discriminate; simpl; eexists; reflexivity.
  - simpl in H. cbn [forEach_action]. rewrite !(member_defined a _ Ha).
    cbn [obind]. apply IH. exact H.
Qed.

Lemma validateWorkflow_absent (workflow : value) :
  is_nullish workflow = false ->
  truthy (Get workflow "actions") = false ->
  validateWorkflow workflow
  = Returned {| valid := Nat.eqb (List.length (workflow_checks workflow)) 0;
                errors := workflow_checks workflow |}.
Proof.
  intros Hw Ht. unfold validateWorkflow.
  rewrite !(member_defined workflow _ Hw). cbn [obind].
  rewrite Ht. cbn [negb orb obind].
  rewrite !push_unless_app. unfold workflow_checks.
  assert (Ha : isArray (Get workflow "actions") = false)
    by (destruct (Get workflow "actions"); try reflexivity; discriminate).
  rewrite Ha. cbn [app]. rewrite <- !app_assoc. reflexivity.
Qed.

Lemma validateWorkflow_well_shaped (workflow : value) :
  well_shaped workflow = true ->
  validateWorkflow workflow
  = Returned {| valid := Nat.eqb (List.length (expected_errors workflow)) 0;
                errors := expected_errors workflow |}.
Proof.
  unfold well_shaped, expected_errors. intros H.
  apply andb_true_iff in H as [Hw Ha]. apply negb_true_iff in Hw.
  destruct (Get workflow "actions") as [| |b|n|s|xs|fs] eqn:E;
    try (apply negb_true_iff in Ha;
         rewrite app_nil_r; apply validateWorkflow_absent;
         [exact Hw | rewrite E; exact Ha]);
    try discriminate.
  apply (validateWorkflow_collects workflow xs E).
  apply Forall_forall. intros a Hin.
  rewrite forallb_forall in Ha. specialize (Ha a Hin).
  now apply negb_true_iff in Ha.
Qed.

Lemma validateWorkflow_ill_shaped (workflow : value) :
  well_shaped workflow = false ->
  exists m, validateWorkflow workflow = Raised (TypeError m).
Proof.
  unfold well_shaped. intros H.
  destruct (is_nullish workflow) eqn:Hw.
  - destruct workflow; try discriminate; simpl; eexists; reflexivity.
  - simpl in H.
    destruct (Get workflow "actions") as [| |b|n|s|xs|fs] eqn:E;
      try discriminate;
      try (apply negb_false_iff in H;
           first [ discriminate
                 | eexists; apply validateWorkflow_raises;
                   [exact Hw | rewrite E; exact H | rewrite E; reflexivity] ]).
    + unfold validateWorkflow.
      rewrite !(member_defined workflow _ Hw). cbn [obind].
      rewrite E. cbn [truthy isArray negb orb].
      destruct (forEach_action_raises xs H 0
                  (push_unless (Get workflow "name") "Workflow must have a name"
                     (push_unless (Get workflow "id") "Workflow must have an id" [])))
        as [m Hm].
      exists m. rewrite Hm. reflexivity.
    + eexists. apply validateWorkflow_raises;
        [exact Hw | now rewrite E | now rewrite E].
Qed.

Lemma truthy_Get_not_nullish (v : value) (key : string) :
  truthy (Get v key) = true -> is_nullish v = false.
Proof. destruct v; simpl; intros H; try discriminate; reflexivity. Qed.

Lemma actions_checks_nil (xs : list value) :
  forall i, actions_checks i xs = [] <-> Forall action_complete xs.
Proof.
  induction xs as [|a r IH]; intros i; simpl.
  - split; [constructor | reflexivity].
  - split.
    + intros H. apply app_eq_nil in H as [Ha Hr].
      unfold action_checks in Ha.
      apply app_eq_nil in Ha as [H1 Ha]. apply app_eq_nil in Ha as [H2 H3].
      constructor; [|now apply (IH (S i))].
      unfold action_complete.
      destruct (truthy (Get a "id")); [|discriminate].
      destruct (truthy (Get a "type")); [|discriminate].
      destruct (truthy (Get a "config")); [|discriminate].
      now repeat split.
    + intros H. inversion H as [|? ? (H1 & H2 & H3) Hr]; subst.
      unfold action_checks. rewrite H1, H2, H3. simpl. now apply IH.
Qed.

(** X4.  On every definition it can read (the workflow is an object or
    another non-null value, [actions] is falsy or an array without null
    elements) the validator returns, and its error list is exactly the
    messages of the failing checks: id, name, actions array, then for
    each action in order id, type, config.  Nothing is left out and
    nothing else is reported. *)
Theorem validate_reports_all_failing_checks (workflow : value) :
  well_shaped workflow = true ->
  validateWorkflow workflow
  = Returned {| valid := Nat.eqb (List.length (expected_errors workflow)) 0;
                errors := expected_errors workflow |}.
Proof. apply validateWorkflow_well_shaped. Qed.

Lemma validate_reports_all_failing_checks_witness :
  validateWorkflow
    (VObj [("name", VStr ""); ("actions", VArr [VNum 5; VObj [("id", VStr "b")]])])
  = Returned
      {| valid := false;
         errors := [ "Workflow must have an id"; "Workflow must have a name";
                     "Action 0 must have an id"; "Action 0 must have a type";
                     "Action 0 must have config";
                     "Action 1 must have a type"; "Action 1 must have config" ] |}.
Proof.
  exact (validate_reports_all_failing_checks
           (VObj [("name", VStr "");
                  ("actions", VArr [VNum 5; VObj [("id", VStr "b")]])])
           eq_refl).
Defined.

(** X5.  The validator raises exactly on the definitions it cannot
    read: a null or undefined workflow, an [actions] that is truthy and
    not an array, or an array holding a null or undefined element.
    What it raises is a [TypeError]. *)
Theorem validate_raises_exactly (workflow : value) :
  (exists e, validateWorkflow workflow = Raised e)
  <-> well_shaped workflow = false.
Proof.
  split.
  - intros [e He]. destruct (well_shaped workflow) eqn:Hs; [|reflexivity].
    rewrite (validateWorkflow_well_shaped _ Hs) in He. discriminate.
  - intros Hs. destruct (validateWorkflow_ill_shaped _ Hs) as [m Hm].
    now exists (TypeError m).
Qed.

Lemma validate_raises_exactly_witness :
  exists e,
    validateWorkflow
      (VObj [("id", VStr "wf-1"); ("name", VStr "Demo");
             ("actions", VArr [VObj [("id", VStr "a")]; VNull])])
    = Raised e.
Proof.
  apply (proj2 (validate_raises_exactly
                  (VObj [("id", VStr "wf-1"); ("name", VStr "Demo");
                         ("actions", VArr [VObj [("id", VStr "a")]; VNull])]))).
  reflexivity.
Defined.

(** X6.  A definition is reported valid exactly when its id and name
    are truthy and its [actions] is an array whose every element has a
    truthy id, type and config; an empty array qualifies. *)
Theorem valid_workflows (workflow : value) :
  validateWorkflow workflow = Returned {| valid := true; errors := [] |}
  <-> truthy (Get workflow "id") = true
      /\ truthy (Get workflow "name") = true
      /\ exists xs, Get workflow "actions" = VArr xs /\ Forall action_complete xs.
Proof.
  split.
  - intros H. destruct (well_shaped workflow) eqn:Hs.
    + rewrite (validateWorkflow_well_shaped _ Hs) in H.
      injection H as Hv He. unfold expected_errors in He.
      apply app_eq_nil in He as [Hw Ha]. unfold workflow_checks in Hw.
      apply app_eq_nil in Hw as [H1 Hw]. apply app_eq_nil in Hw as [H2 H3].
      destruct (truthy (Get workflow "id")); [|discriminate].
      destruct (truthy (Get workflow "name")); [|discriminate].
      destruct (Get workflow "actions") as [| |b|n|s|xs|fs]; try discriminate.
      split; [reflexivity|]. split; [reflexivity|].
      exists xs. split; [reflexivity|].
      now apply (actions_checks_nil xs 0).
    + destruct (validateWorkflow_ill_shaped _ Hs) as [m Hm]. congruence.
  - intros (Hi & Hn & xs & Ha & Hxs).
    assert (Hs : well_shaped workflow = true).
    { unfold well_shaped. rewrite (truthy_Get_not_nullish _ _ Hi), Ha. simpl.
      apply forallb_forall. intros a Hin.
      rewrite Forall_forall in Hxs. destruct (Hxs a Hin) as (H1 & _).
      now rewrite (truthy_Get_not_nullish _ _ H1). }
    rewrite (validateWorkflow_well_shaped _ Hs).
    assert (He : expected_errors workflow = []).
    { unfold expected_errors, workflow_checks. rewrite Hi, Hn, Ha. simpl.
      now apply actions_checks_nil. }
    now rewrite He.
Qed.

Lemma valid_workflows_witness :
  validateWorkflow
    (VObj [("id", VStr "wf-1"); ("name", VStr "Demo");
           ("actions", VArr [VObj [("id", VStr "a"); ("type", VStr "log");
                                   ("config", VObj [])]])])
  = Returned {| valid := true; errors := [] |}.
Proof.
  apply (proj2 (valid_workflows
                  (VObj [("id", VStr "wf-1"); ("name", VStr "Demo");
                         ("actions",
                          VArr [VObj [("id", VStr "a"); ("type", VStr "log");
                                      ("config", VObj [])]])]))).
  split; [reflexivity|]. split; [reflexivity|].
  eexists. split; [reflexivity|]. repeat constructor.
Defined.


(* ================================================================== *)
(** ** Facts about the orchestrator *)
(* ================================================================== *)



Lemma obj_set_keys (fs : list (string * value)) (k k' : string) (v : value) :
  In k' (map fst (obj_set fs k v)) <-> k' = k \/ In k' (map fst fs).
Proof.
  destruct (in_dec string_dec k (map fst fs)) as [Hin|Hout].
  - rewrite obj_set_keys_in by exact Hin. split; [now right|].
    intros [->|H]; assumption.
  - rewrite obj_set_fresh by exact Hout. rewrite map_app, in_app_iff. simpl.
    split; [intros [H|[H|[]]]; auto | intros [H|H]; auto].
Qed.

Lemma update_steps_fresh (rows : list StepRow) (n : nat) (f : StepRow -> StepRow) :
  Forall (fun row => st_id row <= n) rows ->
  map (fun r => if Nat.eqb (st_id r) (S n) then f r else r) rows = rows.
Proof.
  induction 1 as [|row rows Hrow Hrows IH]; simpl; [reflexivity|].
  rewrite IH. destruct (Nat.eqb_spec (st_id row) (S n)); [lia | reflexivity].
Qed.

Lemma ToString_raises (rt : Runtime) (v : value) :
  forall e, ToString rt v = Raised e ->
            e = TypeError "Cannot convert object to primitive value".
Proof.
  induction v as [| |b|n|s|xs IH|fs IH] using value_nested_ind; intros e H;
    try discriminate.
  - destruct b; discriminate.
  - induction IH as [|x l Hx Hl IHl]; [discriminate|].
    cbn [ToString] in H.
    assert (He : forall e0,
               match x with
               | VUndefined | VNull => Returned ""
               | _ => ToString rt x
               end = Raised e0 ->
               e0 = TypeError "Cannot convert object to primitive value").
    { intros e0 H0. destruct x; try discriminate; now apply Hx. }
    destruct (match x with
              | VUndefined | VNull => Returned ""
              | _ => ToString rt x
              end) as [t|e0] eqn:Ex.
    + cbn [obind] in H. destruct l as [|y l']; [discriminate|].
      match type of H with
      | obind ?m _ = _ => destruct m as [t'|e1] eqn:El
      end.
      * discriminate.
      * cbn [obind] in H. inversion H; subst. apply IHl. exact El.
    + cbn [obind] in H. inversion H; subst. now apply He.
  - simpl in H. destruct (has_key fs "toString"); [|discriminate].
    now inversion H.
Qed.

Lemma failure_report_raised (rt : Runtime) (e e2 : exn) :
  failure_report rt e = Raised e2 -> exists m, e2 = TypeError m.
Proof.
  unfold failure_report. intros H.
  destruct (read_message e) as [msg|e1] eqn:Em; cbn [obind] in H.
  - destruct (ToString rt msg) as [t|e3] eqn:Et; cbn [obind] in H; [discriminate|].
    inversion H; subst. rewrite (ToString_raises rt msg e2 Et). now eexists.
  - inversion H; subst. destruct e as [m|m|v]; try discriminate.
    simpl in Em. destruct v; try discriminate; inversion Em; now eexists.
Qed.

Lemma failure_report_returned (rt : Runtime) (e : exn) (msg : value) :
  failure_report rt e = Returned msg ->
  read_message e = Returned msg /\ exists t, ToString rt msg = Returned t.
Proof.
  unfold failure_report. intros H.
  destruct (read_message e) as [m|e1]; cbn [obind] in H; [|discriminate].
  destruct (ToString rt m) as [t|e3] eqn:Et; cbn [obind] in H; [|discriminate].
  inversion H; subst. split; [reflexivity | now exists t].
Qed.

Lemma obj_get_set_app_same (fs more : list (string * value)) (k : string)
  (v : value) :
  obj_get (obj_set fs k v ++ more)%list k = v.
Proof.
  induction fs as [|[k0 x] r IH]; cbn.
  - now rewrite String.eqb_refl.
  - destruct (String.eqb_spec k0 k) as [->|Hne]; cbn.
    + now rewrite String.eqb_refl.
    + apply String.eqb_neq in Hne. now rewrite Hne.
Qed.


Section EngineFacts.
Variable W : Type.
Variable rt : Runtime.
Variable getHandler : string -> option (handler W).

(** The loop body, in terms of what the action does. *)
Lemma run_action_spec (executionId : string) (a : Action) (r : Run W) :
  run_action rt getHandler executionId a r
  = let id := S (step_sequence (run_db r)) in
    let d1 := snd (createExecutionStep executionId (act_id a) (act_type a)
                     running (act_config a) (run_db r)) in
    match perform rt getHandler a (run_context r) (run_inherited r) (run_world r) with
    | (Returned (result, (own1, inherited1)), w1) =>
        (Returned tt,
         {| run_db := updateExecutionStep id completed result None d1;
            run_world := w1; run_context := own1; run_inherited := inherited1;
            run_log := (run_log r ++ [completed_entry a result])%list |})
    | (Raised e, w1) =>
        match failure_report rt e with
        | Returned msg =>
            (Raised e,
             {| run_db := updateExecutionStep id failed VUndefined (Some msg) d1;
                run_world := w1; run_context := run_context r;
                run_inherited := run_inherited r;
                run_log := (run_log r ++ [failed_entry a msg])%list |})
        | Raised e2 =>
            (Raised e2,
             {| run_db := d1; run_world := w1; run_context := run_context r;
                run_inherited := run_inherited r; run_log := run_log r |})
        end
    end.
Proof.
  unfold run_action, perform, dispatch, failure_report, bind, with_db, try_catch,
    get_context, with_world, set_context, push_log, lift, throw, ret. cbn.
  destruct (resolveVariables rt (act_config a)
              (view (run_context r) (run_inherited r))) as [config|e0]; cbn.
  - destruct (executeAction getHandler (act_type a) config (run_world r))
      as [[result|e1] w1]; cbn.
    + destruct (truthy (act_output a)); cbn; [|reflexivity].
      destruct (ToString rt (act_output a)) as [key|e2]; cbn.
      * destruct (assign_context key result (run_context r) (run_inherited r));
          reflexivity.
      * destruct (read_message e2) as [msg|e3]; cbn; [|reflexivity].
        destruct (ToString rt msg); reflexivity.
    + destruct (read_message e1) as [msg|e3]; cbn; [|reflexivity].
      destruct (ToString rt msg); reflexivity.
  - destruct (read_message e0) as [msg|e3]; cbn; [|reflexivity].
    destruct (ToString rt msg); reflexivity.
Qed.
Lemma for_actions_cons (executionId : string) (action : Action)
  (rest : list Action) (r : Run W) :
  for_actions rt getHandler executionId (action :: rest) r
  = match run_action rt getHandler executionId action r with
    | (Returned _, r') => for_actions rt getHandler executionId rest r'
    | (Raised e, r') => (Raised e, r')
    end.
Proof. reflexivity. Qed.

Lemma for_actions_app (executionId : string) (pre post : list Action) :
  forall r,
    for_actions rt getHandler executionId (pre ++ post)%list r
    = match for_actions rt getHandler executionId pre r with
      | (Returned _, r') => for_actions rt getHandler executionId post r'
      | (Raised e, r') => (Raised e, r')
      end.
Proof.
  induction pre as [|a pre IH]; intros r; [reflexivity|].
  change ((a :: pre) ++ post)%list with (a :: (pre ++ post))%list.
  rewrite !for_actions_cons.
  destruct (run_action rt getHandler executionId a r) as [[[]|e] r1];
    [apply IH | reflexivity].
Qed.

Lemma all_succeed_length (actions : list Action)
  (own inherited : list (string * value)) (w : W) (results : list value)
  (own' inherited' : list (string * value)) (w' : W) :
  all_succeed rt getHandler actions own inherited w results own' inherited' w' ->
  List.length results = List.length actions.
Proof. induction 1; cbn; congruence. Qed.

(** The results, the context and the world of a list of actions that
    all succeed are determined. *)
Lemma all_succeed_fun (actions : list Action)
  (own inherited : list (string * value)) (w : W)
  (results1 : list value) (own1 inherited1 : list (string * value)) (w1 : W) :
  all_succeed rt getHandler actions own inherited w results1 own1 inherited1 w1 ->
  forall results2 own2 inherited2 w2,
    all_succeed rt getHandler actions own inherited w results2 own2 inherited2 w2 ->
    results1 = results2 /\ own1 = own2 /\ inherited1 = inherited2 /\ w1 = w2.
Proof.
  induction 1 as [|a rest own inherited w result ownA inhA wA results own' inh' w'
                    Hp Hrest IH]; intros results2 own2 inherited2 w2 H2.
  - inversion H2; subst. now repeat split.
  - inversion H2 as [|? ? ? ? ? resultB ownB inhB wB resultsB ? ? ? HpB HrestB];
      subst.
    rewrite Hp in HpB. inversion HpB; subst.
    destruct (IH _ _ _ _ HrestB) as (-> & -> & -> & ->). now repeat split.
Qed.

(** Either every action succeeds, or there is a first one that fails. *)
Lemma actions_outcome (actions : list Action) :
  forall own inherited w,
    (exists results own' inherited' w',
        all_succeed rt getHandler actions own inherited w
          results own' inherited' w')
    \/ (exists pre a post results own_k inherited_k w_k e w',
           actions = (pre ++ a :: post)%list
           /\ all_succeed rt getHandler pre own inherited w
                results own_k inherited_k w_k
           /\ perform rt getHandler a own_k inherited_k w_k = (Raised e, w')).
Proof.
  induction actions as [|a rest IH]; intros own inherited w.
  - left. exists [], own, inherited, w. constructor.
  - destruct (perform rt getHandler a own inherited w)
      as [[[result [own1 inh1]]|e] w1] eqn:Hp.
    + destruct (IH own1 inh1 w1)
        as [(results & own' & inh' & w' & Hall)
           |(pre & b & post & results & own_k & inh_k & w_k & e & w' & -> & Hpre & Hb)].
      * left. exists (result :: results), own', inh', w'.
        econstructor; eassumption.
      * right. exists (a :: pre), b, post, (result :: results), own_k, inh_k, w_k, e, w'.
        split; [reflexivity|]. split; [|exact Hb].
        econstructor; eassumption.
    + right. exists [], a, rest, [], own, inherited, w, e, w1.
      split; [reflexivity|]. split; [constructor | exact Hp].
Qed.

Lemma step_rows_after (d : Database) (executionId : string) (action : Action)
  (st : Status) (out : value) (err : option value) :
  steps_below_sequence d ->
  let d' := updateExecutionStep (S (step_sequence d)) st out err
              (snd (createExecutionStep executionId (act_id action)
                      (act_type action) running (act_config action) d)) in
  execution_steps d'
  = (execution_steps d ++
     [ {| st_id := S (step_sequence d); st_execution_id := executionId;
          st_step_id := act_id action; st_step_type := act_type action;
          st_status := st;
          st_input_data := json (or_empty_object (act_config action));
          st_output_data := Some (json (or_empty_object out));
          st_error_message := truthy_or_null err |} ])%list
  /\ step_sequence d' = S (step_sequence d)
  /\ executions d' = executions d
  /\ steps_below_sequence d'.
Proof.
  intros Hd d'. subst d'. unfold steps_below_sequence in *. cbn.
  rewrite map_app, (update_steps_fresh _ _ _ Hd). cbn.
  rewrite Nat.eqb_refl. repeat split.
  apply Forall_app. split.
  - eapply Forall_impl; [|exact Hd]. cbn. intros; lia.
  - repeat constructor.
Qed.

(** The row of a step that is left running. *)
Lemma step_rows_running (d : Database) (executionId : string) (action : Action) :
  let d' := snd (createExecutionStep executionId (act_id action)
                   (act_type action) running (act_config action) d) in
  execution_steps d'
  = (execution_steps d ++ [running_row (S (step_sequence d)) executionId action])%list
  /\ executions d' = executions d.
Proof. split; reflexivity. Qed.

(** The loop over actions that all succeed. *)
Lemma for_actions_succeed (executionId : string) (actions : list Action)
  (own inherited : list (string * value)) (w : W) (results : list value)
  (own' inherited' : list (string * value)) (w' : W) :
  all_succeed rt getHandler actions own inherited w results own' inherited' w' ->
  forall d l,
  exists d',
    for_actions rt getHandler executionId actions (mkRun d w own inherited l)
    = (Returned tt,
       mkRun d' w' own' inherited' (l ++ completed_entries actions results)%list)
    /\ executions d' = executions d
    /\ (steps_below_sequence d ->
        steps_below_sequence d'
        /\ step_sequence d' = step_sequence d + List.length actions
        /\ execution_steps d'
           = (execution_steps d
              ++ completed_rows (step_sequence d) executionId actions results)%list).
Proof.
  induction 1 as [|a rest own inherited w result ownA inhA wA results own' inh' w'
                    Hp Hrest IH]; intros d l.
  - exists d. split; [|split; [reflexivity|]].
    + cbn. unfold ret. now rewrite app_nil_r.
    + intros Hd. split; [exact Hd|]. split; [cbn; lia|]. cbn. now rewrite app_nil_r.
  - rewrite for_actions_cons, run_action_spec. cbn [run_context run_inherited
      run_world run_db run_log]. cbv zeta. rewrite Hp.
    match goal with
    | |- context [for_actions _ _ _ rest (mkRun ?d1 _ _ _ ?l1)] =>
        destruct (IH d1 l1) as (d' & Hrun & Hex & Hsteps)
    end.
    exists d'. split; [|split].
    + rewrite Hrun. f_equal. f_equal. rewrite <- app_assoc. reflexivity.
    + rewrite Hex. reflexivity.
    + intros Hd.
      destruct (step_rows_after d executionId a completed result None Hd)
        as (Hrows & Hseq & _ & Hbelow).
      destruct (Hsteps Hbelow) as (Hb' & Hs' & Hr').
      split; [exact Hb'|]. split.
      * rewrite Hs', Hseq. cbn. lia.
      * rewrite Hr', Hrows, Hseq, <- app_assoc. reflexivity.
Qed.

(** The loop stops at the first failing action, whatever follows it. *)
Lemma for_actions_stops (executionId : string) (pre post : list Action)
  (a : Action) (r : Run W) (d_k : Database) (w_k : W)
  (own_k inherited_k : list (string * value)) (l_k : list LogEntry)
  (e : exn) (w' : W) :
  for_actions rt getHandler executionId pre r
  = (Returned tt, mkRun d_k w_k own_k inherited_k l_k) ->
  perform rt getHandler a own_k inherited_k w_k = (Raised e, w') ->
  for_actions rt getHandler executionId (pre ++ a :: post)%list r
  = let d1 := snd (createExecutionStep executionId (act_id a) (act_type a)
                     running (act_config a) d_k) in
    match failure_report rt e with
    | Returned msg =>
        (Raised e,
         mkRun (updateExecutionStep (S (step_sequence d_k)) failed VUndefined
                  (Some msg) d1)
           w' own_k inherited_k (l_k ++ [failed_entry a msg])%list)
    | Raised e2 => (Raised e2, mkRun d1 w' own_k inherited_k l_k)
    end.
Proof.
  intros Hrun Hp.
  rewrite for_actions_app, Hrun, for_actions_cons, run_action_spec.
  cbn [run_context run_inherited run_world run_db run_log]. cbv zeta. rewrite Hp.
  destruct (failure_report rt e); reflexivity.
Qed.

Lemma execute_completed (env : Env) (workflow : Workflow) (triggerData : value)
  (d : Database) (w : W) (r' : Run W) :
  for_actions rt getHandler (uuidv4 env) (wf_actions workflow)
    (start_of_run env workflow triggerData d w) = (Returned tt, r') ->
  execute rt getHandler env workflow triggerData d w
  = (Returned {| success := true; execution_id := uuidv4 env;
                 result_error := None; log := run_log r';
                 context := Some (run_context r') |},
     {| run_db :=
          updateExecution (uuidv4 env)
            {| up_status := completed;
               up_execution_log := Some (run_log r');
               up_error_message := None;
               up_completed_at := Some (date_at_end env) |} (run_db r');
        run_world := run_world r';
        run_context := run_context r';
        run_inherited := run_inherited r';
        run_log := run_log r' |}).
Proof.
  intros H. unfold execute, try_catch, bind. rewrite H. reflexivity.
Qed.

Lemma execute_failed (env : Env) (workflow : Workflow) (triggerData : value)
  (d : Database) (w : W) (e : exn) (r' : Run W) (msg : value) :
  for_actions rt getHandler (uuidv4 env) (wf_actions workflow)
    (start_of_run env workflow triggerData d w) = (Raised e, r') ->
  failure_report rt e = Returned msg ->
  execute rt getHandler env workflow triggerData d w
  = (Returned {| success := false; execution_id := uuidv4 env;
                 result_error := Some msg; log := run_log r';
                 context := None |},
     {| run_db :=
          updateExecution (uuidv4 env)
            {| up_status := failed;
               up_execution_log := Some (run_log r');
               up_error_message := Some msg;
               up_completed_at := Some (date_at_end env) |} (run_db r');
        run_world := run_world r';
        run_context := run_context r';
        run_inherited := run_inherited r';
        run_log := run_log r' |}).
Proof.
  intros H Hf. apply failure_report_returned in Hf as (Hm & t & Ht).
  unfold execute, try_catch, bind, lift. rewrite H, Hm, Ht. reflexivity.
Qed.

(** The exception the loop raises when the message of a failure cannot
    be read is a TypeError, whose message can. *)
Lemma execute_failed_unread (env : Env) (workflow : Workflow)
  (triggerData : value) (d : Database) (w : W) (m : string) (r' : Run W) :
  for_actions rt getHandler (uuidv4 env) (wf_actions workflow)
    (start_of_run env workflow triggerData d w) = (Raised (TypeError m), r') ->
  execute rt getHandler env workflow triggerData d w
  = (Returned {| success := false; execution_id := uuidv4 env;
                 result_error := Some (VStr m); log := run_log r';
                 context := None |},
     {| run_db :=
          updateExecution (uuidv4 env)
            {| up_status := failed;
               up_execution_log := Some (run_log r');
               up_error_message := Some (VStr m);
               up_completed_at := Some (date_at_end env) |} (run_db r');
        run_world := run_world r';
        run_context := run_context r';
        run_inherited := run_inherited r';
        run_log := run_log r' |}).
Proof.
  intros H. apply (execute_failed env workflow triggerData d w _ r' (VStr m) H).
  reflexivity.
Qed.
End EngineFacts.

(* ================================================================== *)
(** ** Properties of the orchestrator *)
(* ================================================================== *)

Section EngineProperties.
Variable W : Type.
Variable rt : Runtime.
Variable getHandler : string -> option (handler W).

(** C1.  When the actions before [a] succeed and performing [a] fails
    with the exception [e] (raised while its configuration is
    resolved, thrown by its handler, or the unknown-type error when no
    handler is registered), and the message [msg] of [e] can be read
    and printed, [execute] returns a failure with that message, whose
    log is the completed entries of the actions before [a] followed by
    the failed entry of [a]; the steps table has gained the completed
    rows of the actions before [a] and the failed row of [a], whose
    error column holds the message when it is truthy and NULL when it
    is not; the world is as the failing action left it; for an
    unregistered type the message is the unknown-type text; and
    nothing depends on the actions after [a]. *)
Theorem fail_fast (env : Env) (workflow : Workflow) (triggerData : value)
  (d : Database) (w : W) (pre post : list Action) (a : Action)
  (results : list value) (own inherited : list (string * value))
  (w_k w' : W) (e : exn) (msg : value) :
  wf_actions workflow = (pre ++ a :: post)%list ->
  steps_below_sequence d ->
  all_succeed rt getHandler pre
    (run_context (start_of_run env workflow triggerData d w)) [] w
    results own inherited w_k ->
  perform rt getHandler a own inherited w_k = (Raised e, w') ->
  failure_report rt e = Returned msg ->
  exists r_end,
    execute rt getHandler env workflow triggerData d w
    = (Returned {| success := false; execution_id := uuidv4 env;
                   result_error := Some msg;
                   log := (completed_entries pre results
                           ++ [failed_entry a msg])%list;
                   context := None |},
       r_end)
    /\ execution_steps (run_db r_end)
       = (execution_steps d
          ++ completed_rows (step_sequence d) (uuidv4 env) pre results
          ++ [failed_row (S (step_sequence d + List.length pre)) (uuidv4 env)
                a msg])%list
    /\ st_error_message
         (failed_row (S (step_sequence d + List.length pre)) (uuidv4 env) a msg)
       = (if truthy msg then Some msg else None)
    /\ run_world r_end = w'
    /\ (getHandler (act_type a) = None ->
        forall config,
          resolveVariables rt (act_config a) (view own inherited) = Returned config ->
          e = Error ("Unknown action type: " ++ act_type a)
          /\ msg = VStr ("Unknown action type: " ++ act_type a))
    /\ (forall post',
           execute rt getHandler env
             {| wf_id := wf_id workflow; wf_name := wf_name workflow;
                wf_actions := (pre ++ a :: post')%list |} triggerData d w
           = execute rt getHandler env workflow triggerData d w).
Proof.
  intros Hwf Hd Hall Hp Hmsg.
  set (d0 := run_db (start_of_run env workflow triggerData d w)).
  destruct (for_actions_succeed W rt getHandler (uuidv4 env) pre _ _ _ _ _ _ _
              Hall d0 []) as (d_k & Hrun & _ & Hsteps).
  destruct (Hsteps Hd) as (Hbelow & Hseq & Hrows).
  assert (Hloop : forall post',
             for_actions rt getHandler (uuidv4 env) (pre ++ a :: post')%list
               (start_of_run env workflow triggerData d w)
             = (Raised e,
                mkRun (updateExecutionStep (S (step_sequence d_k)) failed VUndefined
                         (Some msg)
                         (snd (createExecutionStep (uuidv4 env) (act_id a)
                                 (act_type a) running (act_config a) d_k)))
                  w' own inherited
                  (([] ++ completed_entries pre results)
                   ++ [failed_entry a msg])%list)).
  { intros post'.
    pose proof (for_actions_stops W rt getHandler (uuidv4 env) pre post' a
                  (start_of_run env workflow triggerData d w) _ _ _ _ _ e w'
                  Hrun Hp) as Hstop.
    cbv zeta in Hstop. rewrite Hmsg in Hstop. exact Hstop. }
  assert (Hexec : forall wf',
             wf_id wf' = wf_id workflow -> wf_name wf' = wf_name workflow ->
             (exists post', wf_actions wf' = (pre ++ a :: post')%list) ->
             execute rt getHandler env wf' triggerData d w
             = execute rt getHandler env workflow triggerData d w).
  { intros wf' Hi Hn [post' Hpost].
    rewrite (execute_failed W rt getHandler env workflow triggerData d w e _ msg
               (eq_trans (f_equal (fun l => for_actions rt getHandler (uuidv4 env) l
                                              (start_of_run env workflow triggerData d w))
                            Hwf) (Hloop post)) Hmsg).
    refine (execute_failed W rt getHandler env wf' triggerData d w e _ msg _ Hmsg).
    replace (start_of_run env wf' triggerData d w)
      with (start_of_run env workflow triggerData d w)
      by (unfold start_of_run, seeded_context; now rewrite Hi, Hn).
    rewrite Hpost. apply Hloop. }
  eexists. split; [|split; [|split; [|split; [|split]]]].
  - rewrite (execute_failed W rt getHandler env workflow triggerData d w e _ msg
               (eq_trans (f_equal (fun l => for_actions rt getHandler (uuidv4 env) l
                                              (start_of_run env workflow triggerData d w))
                            Hwf) (Hloop post)) Hmsg).
    reflexivity.
  - cbn [run_db updateExecution execution_steps].
    destruct (step_rows_after d_k (uuidv4 env) a failed VUndefined (Some msg) Hbelow)
      as (Hnew & _).
    rewrite Hnew, Hrows, Hseq, <- app_assoc. reflexivity.
  - reflexivity.
  - reflexivity.
  - intros Hnone config Hconfig. unfold perform, dispatch, executeAction in Hp.
    rewrite Hconfig, Hnone in Hp. inversion Hp; subst.
    split; [reflexivity|]. cbn in Hmsg. now inversion Hmsg.
  - intros post'. apply Hexec; [reflexivity | reflexivity | now exists post'].
Qed.


(** C4.  On a workflow without actions [execute] returns success, an
    empty log, and the context it started from: the four keys
    trigger, workflow, now and executionId, in which the trigger data
    is the caller's, or an empty object when none was given. *)
Theorem execute_empty_workflow (env : Env) (workflow : Workflow)
  (triggerData : value) (d : Database) (w : W) :
  wf_actions workflow = [] ->
  exists r_end,
    execute rt getHandler env workflow triggerData d w
    = (Returned
         {| success := true; execution_id := uuidv4 env;
            result_error := None; log := [];
            context :=
              Some [ ("trigger",
                      if is_undefined triggerData then VObj [] else triggerData);
                     ("workflow", VObj [("id", VStr (wf_id workflow));
                                        ("name", VStr (wf_name workflow))]);
                     ("now", VStr (date_at_start env));
                     ("executionId", VStr (uuidv4 env)) ] |},
       r_end)
    /\ run_world r_end = w
    /\ execution_steps (run_db r_end) = execution_steps d.
Proof.
  intros Hwf.
  assert (Hloop : for_actions rt getHandler (uuidv4 env) (wf_actions workflow)
                    (start_of_run env workflow triggerData d w)
                  = (Returned tt, start_of_run env workflow triggerData d w))
    by (rewrite Hwf; reflexivity).
  rewrite (execute_completed W rt getHandler env workflow triggerData d w _ Hloop).
  eexists. repeat split.
Qed.

End EngineProperties.

Example run_of_three_actions :
  fst (execute bare_runtime demo_registry demo_env
         (demo_workflow [demo_first; demo_last; demo_shadow])
         demo_trigger empty_database 0)
  = Returned
      {| success := true; execution_id := "run-1"; result_error := None;
         log := [ completed_entry demo_first (VObj [("text", VStr "Hi Ana")]);
                  completed_entry demo_last (VStr "Hi Ana");
                  completed_entry demo_shadow (VNum 7) ];
         context :=
           Some [ ("trigger", VNum 7);
                  ("workflow", VObj [("id", VStr "wf-1"); ("name", VStr "Demo")]);
                  ("now", VStr "2024-01-01T00:00:00.000Z");
                  ("executionId", VStr "run-1");
                  ("first", VObj [("text", VStr "Hi Ana")]);
                  ("last", VStr "Hi Ana") ] |}.
Proof. reflexivity. Qed.

Example run_stops_at_unknown_type :
  let out := execute bare_runtime demo_registry demo_env
               (demo_workflow [demo_first; demo_unknown; demo_last])
               demo_trigger empty_database 0 in
  fst out
  = Returned
      {| success := false; execution_id := "run-1";
         result_error := Some (VStr "Unknown action type: nonexistent");
         log := [ completed_entry demo_first (VObj [("text", VStr "Hi Ana")]);
                  failed_entry demo_unknown
                    (VStr "Unknown action type: nonexistent") ];
         context := None |}
  /\ run_world (snd out) = 1
  /\ execution_steps (run_db (snd out))
     = [ completed_row 1 "run-1" demo_first (VObj [("text", VStr "Hi Ana")]);
         failed_row 2 "run-1" demo_unknown
           (VStr "Unknown action type: nonexistent") ].
Proof. repeat split. Qed.

(** A handler that throws undefined: the catch of the loop raises when
    it reads the message, the row of the step stays running and the
    log has no entry for it. *)
Example run_with_rejecting_handler :
  let out := execute bare_runtime demo_registry demo_env
               (demo_workflow [demo_first; demo_reject; demo_last])
               demo_trigger empty_database 0 in
  fst out
  = Returned
      {| success := false; execution_id := "run-1";
         result_error :=
           Some (VStr "Cannot read properties of undefined (reading 'message')");
         log := [ completed_entry demo_first (VObj [("text", VStr "Hi Ana")]) ];
         context := None |}
  /\ run_world (snd out) = 2
  /\ execution_steps (run_db (snd out))
     = [ completed_row 1 "run-1" demo_first (VObj [("text", VStr "Hi Ana")]);
         running_row 2 "run-1" demo_reject ].
Proof. repeat split. Qed.

(** An output named [__proto__] with a number as result: the context
    is left as it was. *)
Example run_with_proto_output :
  fst (execute bare_runtime demo_registry demo_env
         (demo_workflow [demo_proto]) demo_trigger empty_database 0)
  = Returned
      {| success := true; execution_id := "run-1"; result_error := None;
         log := [ completed_entry demo_proto (VNum 7) ];
         context :=
           Some [ ("trigger", demo_trigger);
                  ("workflow", VObj [("id", VStr "wf-1"); ("name", VStr "Demo")]);
                  ("now", VStr "2024-01-01T00:00:00.000Z");
                  ("executionId", VStr "run-1") ] |}.
Proof. reflexivity. Qed.

Lemma fail_fast_witness :
  exists r_end,
    execute bare_runtime demo_registry demo_env
      (demo_workflow [demo_first; demo_unknown; demo_last])
      demo_trigger empty_database 0
    = (Returned {| success := false; execution_id := "run-1";
                   result_error := Some (VStr "Unknown action type: nonexistent");
                   log := (completed_entries [demo_first]
                             [VObj [("text", VStr "Hi Ana")]]
                           ++ [failed_entry demo_unknown
                                 (VStr "Unknown action type: nonexistent")])%list;
                   context := None |},
       r_end)
    /\ execution_steps (run_db r_end)
       = ([] ++ completed_rows 0 "run-1" [demo_first]
                  [VObj [("text", VStr "Hi Ana")]]
          ++ [failed_row 2 "run-1" demo_unknown
                (VStr "Unknown action type: nonexistent")])%list
    /\ st_error_message
         (failed_row 2 "run-1" demo_unknown
            (VStr "Unknown action type: nonexistent"))
       = Some (VStr "Unknown action type: nonexistent")
    /\ run_world r_end = 1
    /\ (demo_registry "nonexistent" = None ->
        forall config,
          resolveVariables bare_runtime (VObj [])
            (view (seeded_context demo_env (demo_workflow []) demo_trigger
                   ++ [("first", VObj [("text", VStr "Hi Ana")])]) [])
          = Returned config ->
          Error "Unknown action type: nonexistent"
          = Error ("Unknown action type: " ++ "nonexistent")
          /\ VStr "Unknown action type: nonexistent"
             = VStr ("Unknown action type: " ++ "nonexistent"))
    /\ (forall post',
           execute bare_runtime demo_registry demo_env
             (demo_workflow ([demo_first] ++ demo_unknown :: post')%list)
             demo_trigger empty_database 0
           = execute bare_runtime demo_registry demo_env
               (demo_workflow [demo_first; demo_unknown; demo_last])
               demo_trigger empty_database 0).
Proof.
  apply (fail_fast nat bare_runtime demo_registry demo_env
           (demo_workflow [demo_first; demo_unknown; demo_last])
           demo_trigger empty_database 0 [demo_first] [demo_last] demo_unknown
           [VObj [("text", VStr "Hi Ana")]]
           (seeded_context demo_env (demo_workflow []) demo_trigger
            ++ [("first", VObj [("text", VStr "Hi Ana")])])%list
           [] 1 1 (Error "Unknown action type: nonexistent")
           (VStr "Unknown action type: nonexistent")).
  - reflexivity.
  - constructor.
  - econstructor; [reflexivity | constructor].
  - reflexivity.
  - reflexivity.
Defined.

(** C1 as the specification words it fails: the handler of
    [demo_silent] throws an error whose message is empty, and the row
    of the step is failed with NULL in its error column. *)
Lemma silent_failure_stored_as_null : ~ failed_step_holds_message.
Proof.
  intros H.
  destruct (H nat bare_runtime demo_registry demo_env (demo_workflow [demo_silent])
              demo_trigger empty_database 0 [] [] demo_silent []
              (seeded_context demo_env (demo_workflow []) demo_trigger) [] 0 1
              (Error "") "" eq_refl (Forall_nil _)
              (succeed_nil _ _ _ _ _) eq_refl eq_refl)
    as (row & Hin & _ & _ & Herr).
  vm_compute in Hin. destruct Hin as [<-|[]]. discriminate Herr.
Qed.

Lemma execute_empty_workflow_witness :
  exists r_end,
    execute bare_runtime demo_registry demo_env (demo_workflow []) VUndefined
      empty_database 0
    = (Returned
         {| success := true; execution_id := "run-1";
            result_error := None; log := [];
            context :=
              Some [ ("trigger", VObj []);
                     ("workflow", VObj [("id", VStr "wf-1"); ("name", VStr "Demo")]);
                     ("now", VStr "2024-01-01T00:00:00.000Z");
                     ("executionId", VStr "run-1") ] |},
       r_end)
    /\ run_world r_end = 0
    /\ execution_steps (run_db r_end) = [].
Proof.
  exact (execute_empty_workflow nat bare_runtime demo_registry demo_env
           (demo_workflow []) VUndefined empty_database 0 eq_refl).
Defined.



(* ================================================================== *)
(** ** Further properties of the resolver *)
(* ================================================================== *)

Section ResolverLike.
Variable rt : Runtime.
Variable context : value.

Lemma resolve_items_like (xs : list value) :
  Forall (fun x => well_keyed x ->
                   forall w, resolveVariables rt x context = Returned w ->
                             resolved_like rt context x w) xs ->
  Forall well_keyed xs ->
  forall ys, resolve_items rt context xs = Returned ys ->
             Forall2 (resolved_like rt context) xs ys.
Proof.
  induction 1 as [|x l Hx Hl IH]; intros Hw ys E; simpl in E.
  - inversion E; subst. constructor.
  - inversion Hw; subst.
    destruct (resolveVariables rt x context) as [y|e] eqn:Ey; [|discriminate].
    destruct (resolve_items rt context l) as [ys'|e] eqn:El; [|discriminate].
    inversion E; subst. constructor; [now apply Hx | now apply IH].
Qed.

Lemma resolve_entries_like (l : list (string * value)) :
  Forall (fun kv => well_keyed (snd kv) ->
                    forall w, resolveVariables rt (snd kv) context = Returned w ->
                              resolved_like rt context (snd kv) w) l ->
  forall acc r,
    NoDup (map fst acc ++ map fst l) ->
    Forall (fun kv => fst kv <> "__proto__" /\ well_keyed (snd kv)) l ->
    resolve_entries rt context l acc = Returned r ->
    exists gs,
      r = (acc ++ gs)%list
      /\ Forall2 (fun kv kv' =>
                    fst kv = fst kv'
                    /\ resolved_like rt context (snd kv) (snd kv')) l gs.
Proof.
  induction 1 as [|[k x] l Hx Hl IH]; intros acc r Hnd Hfs H; simpl in H.
  - inversion H; subst. exists []. split; [now rewrite app_nil_r | constructor].
  - inversion Hfs as [|? ? [Hk Hwx] Hfs']; subst. simpl in Hk, Hwx, Hx.
    destruct (resolveVariables rt x context) as [y|e] eqn:E; [|discriminate].
    cbn [obind] in H. unfold assign in H.
    destruct (String.eqb_spec k "__proto__"); [contradiction|].
    simpl in Hnd. pose proof (NoDup_remove_2 _ _ _ Hnd) as Hfresh.
    rewrite obj_set_fresh in H
      by (intros Hin; apply Hfresh; apply in_or_app; now left).
    destruct (IH (acc ++ [(k, y)])%list r) as (gs & -> & Hall);
      [rewrite map_app, <- app_assoc; exact Hnd | exact Hfs' | exact H |].
    exists ((k, y) :: gs). split; [now rewrite <- app_assoc|].
    constructor; [split; [reflexivity | now apply Hx] | exact Hall].
Qed.

Lemma resolveVariables_like (v : value) :
  well_keyed v ->
  forall w, resolveVariables rt v context = Returned w ->
            resolved_like rt context v w.
Proof.
  induction v as [| | | | s |xs IH|fs IH] using value_nested_ind; intros Hv w H;
    try (inversion H; subst; constructor; fail).
  - simpl in H. destruct (substituteString rt s context) as [t|e] eqn:E;
      [|discriminate].
    inversion H; subst. now constructor.
  - rewrite resolveVariables_array in H.
    destruct (resolve_items rt context xs) as [ys|e] eqn:E; [|discriminate].
    inversion H; subst. constructor.
    apply (resolve_items_like xs IH); [now apply well_keyed_arr | exact E].
  - rewrite resolveVariables_object in H.
    destruct (resolve_entries rt context fs []) as [gs|e] eqn:E; [|discriminate].
    inversion H; subst. constructor.
    apply well_keyed_obj in Hv as [Hnd Hfs].
    destruct (resolve_entries_like fs IH [] gs Hnd Hfs E) as (gs' & -> & Hall).
    exact Hall.
Qed.
End ResolverLike.

(** X1.  Resolution keeps the shape of a configuration whose property
    names are distinct and never [__proto__]: when it returns, scalars
    other than strings are unchanged, every string is replaced by its
    substitution, arrays keep their length and order, objects keep
    their property names in order; the names are never substituted. *)
Theorem resolve_preserves_shape (rt : Runtime) (context v w : value) :
  well_keyed v ->
  resolveVariables rt v context = Returned w ->
  resolved_like rt context v w
  /\ (forall xs, v = VArr xs ->
        exists ys, w = VArr ys /\ List.length ys = List.length xs)
  /\ (forall fs, v = VObj fs ->
        exists gs, w = VObj gs /\ map fst gs = map fst fs).
Proof.
  intros Hv H.
  pose proof (resolveVariables_like rt context v Hv w H) as Hlike.
  split; [exact Hlike|]. split.
  - intros xs ->. inversion Hlike as [| | | | |? ys Hall|]; subst.
    exists ys. split; [reflexivity|]. symmetry. exact (Forall2_length Hall).
  - intros fs ->. inversion Hlike as [| | | | | |? gs Hall]; subst.
    exists gs. split; [reflexivity|].
    clear - Hall. induction Hall as [|kv kv' l l' [Hk _] _ IH]; [reflexivity|].
    simpl. now rewrite IH, Hk.
Qed.

Lemma resolve_preserves_shape_witness :
  let v := VObj [("greet", VStr "Hi {{trigger.name}}");
                 ("tags", VArr [VStr "{{trigger.name}}"; VNum 3])] in
  let w := VObj [("greet", VStr "Hi Ana"); ("tags", VArr [VStr "Ana"; VNum 3])] in
  let context := VObj [("trigger", VObj [("name", VStr "Ana")])] in
  resolved_like bare_runtime context v w
  /\ (forall xs, v = VArr xs ->
        exists ys, w = VArr ys /\ List.length ys = List.length xs)
  /\ (forall fs, v = VObj fs ->
        exists gs, w = VObj gs /\ map fst gs = map fst fs).
Proof.
  intros v w context. apply (resolve_preserves_shape bare_runtime context v w).
  - split; [|reflexivity]. constructor.
    + simpl. repeat constructor; simpl; intuition discriminate.
    + repeat constructor.
  - reflexivity.
Defined.

(** X2.  A configuration whose property names are distinct and never
    [__proto__], and none of whose strings contains [{{], is handed on
    as it is, whatever the context holds. *)
Theorem resolve_plain_config_unchanged (rt : Runtime) (context v : value) :
  well_keyed v -> no_open_value v = true ->
  resolveVariables rt v context = Returned v.
Proof. intros Hv Ho. now apply resolveVariables_fixed. Qed.

Lemma resolve_plain_config_unchanged_witness :
  resolveVariables bare_runtime
    (VObj [("url", VStr "http://example.org/{id}"); ("retries", VNum 3);
           ("tags", VArr [VStr "a"; VNull])])
    (VObj [("id", VNum 1)])
  = Returned
      (VObj [("url", VStr "http://example.org/{id}"); ("retries", VNum 3);
             ("tags", VArr [VStr "a"; VNull])]).
Proof.
  apply resolve_plain_config_unchanged; [|reflexivity].
  split; [|reflexivity]. constructor.
  - simpl. repeat constructor; simpl; intuition discriminate.
  - repeat constructor.
Defined.

(** A property named [__proto__] is not carried over. *)
Example resolve_drops_proto_key :
  resolveVariables bare_runtime
    (VObj [("__proto__", VStr "abc"); ("k", VNum 1)]) (VObj [])
  = Returned (VObj [("k", VNum 1)]).
Proof. reflexivity. Qed.

Lemma key_chars_trim (k : string) : key_chars k = true -> trim k = k.
Proof.
  intros H. unfold trim.
  assert (Hs : trim_start k = k).
  { destruct k as [|c k]; [reflexivity|]. simpl in *.
    apply andb_true_iff in H as [H _]. apply andb_true_iff in H as [_ H].
    apply negb_true_iff in H. now rewrite H. }
  rewrite Hs. induction k as [|c k IH]; [reflexivity|].
  simpl in H. apply andb_true_iff in H as [H Hk].
  apply andb_true_iff in H as [_ Hc]. apply negb_true_iff in Hc.
  assert (Hs' : trim_start k = k).
  { destruct k as [|c' k']; [reflexivity|]. simpl in *.
    apply andb_true_iff in Hk as [Hk _]. apply andb_true_iff in Hk as [_ Hk].
    apply negb_true_iff in Hk. now rewrite Hk. }
  simpl. rewrite (IH Hk Hs'). destruct k; [now rewrite Hc | reflexivity].
Qed.

Lemma key_chars_split (k : string) : key_chars k = true -> split "." k = [k].
Proof.
  induction k as [|c k IH]; intros H; [reflexivity|].
  simpl in H. apply andb_true_iff in H as [H Hk].
  apply andb_true_iff in H as [H _]. apply andb_true_iff in H as [Hd _].
  apply negb_true_iff in Hd. simpl. rewrite Hd, (IH Hk). reflexivity.
Qed.

Lemma key_chars_no_close (k : string) : key_chars k = true -> no_close k = true.
Proof.
  induction k as [|c k IH]; intros H; [reflexivity|].
  simpl in H. apply andb_true_iff in H as [H Hk].
  apply andb_true_iff in H as [H _]. apply andb_true_iff in H as [_ Hc].
  simpl. now rewrite Hc, (IH Hk).
Qed.

Lemma has_key_set_app (fs more : list (string * value)) (k : string) (v : value) :
  has_key (obj_set fs k v ++ more)%list k = true.
Proof.
  unfold has_key. induction fs as [|[k0 x] r IH]; cbn.
  - now rewrite String.eqb_refl.
  - destruct (String.eqb_spec k0 k) as [->|Hne]; cbn.
    + now rewrite String.eqb_refl.
    + apply String.eqb_neq in Hne. now rewrite Hne.
Qed.

(** A one-segment path reads the own property of that name. *)
Lemma substituteString_simple_key (rt : Runtime) (fs : list (string * value))
  (k : string) :
  simple_key k = true ->
  has_key fs k = true ->
  substituteString rt ("{{" ++ k ++ "}}") (VObj fs)
  = if is_undefined (obj_get fs k) then Returned ("{{" ++ k ++ "}}")
    else ToString rt (obj_get fs k).
Proof.
  intros H Hown. apply andb_true_iff in H as [Hne Hk].
  apply negb_true_iff, String.eqb_neq in Hne.
  pose proof (substituteString_token rt (VObj fs) k ""
                Hne (key_chars_no_close k Hk)) as E.
  assert (E' : substituteString rt ("{{" ++ k ++ "}}") (VObj fs)
               = (let? t := replacement rt (VObj fs) k in
                  let? r := substituteString rt "" (VObj fs) in
                  Returned (t ++ r))) by exact E.
  rewrite E'. unfold replacement.
  rewrite (key_chars_trim k Hk), (key_chars_split k Hk).
  cbn [walk truthy has_own Get]. rewrite Hown.
  destruct (is_undefined (obj_get fs k)).
  - cbn. now rewrite append_empty_r.
  - destruct (ToString rt (obj_get fs k)); cbn; [now rewrite append_empty_r|].
    reflexivity.
Qed.





Section EngineExtras.
Variable W : Type.
Variable rt : Runtime.
Variable getHandler : string -> option (handler W).

(** A successful action removes no key, and adds its output key. *)
Lemma perform_keys (a : Action) (own inherited : list (string * value)) (w : W)
  (result : value) (own1 inherited1 : list (string * value)) (w1 : W) :
  perform rt getHandler a own inherited w
  = (Returned (result, (own1, inherited1)), w1) ->
  (forall k, In k (map fst own) -> In k (map fst own1))
  /\ (forall key, truthy (act_output a) = true ->
                  ToString rt (act_output a) = Returned key ->
                  key <> "__proto__" -> In key (map fst own1)).
Proof.
  unfold perform. intros H.
  destruct (dispatch rt getHandler a (view own inherited) w) as [[res|e] w2];
    [|discriminate].
  destruct (truthy (act_output a)).
  - destruct (ToString rt (act_output a)) as [key|e]; [|discriminate].
    unfold assign_context in H. revert H.
    destruct (String.eqb_spec key "__proto__") as [Heq|Hne]; intros H.
    + split.
      * intros k Hk. destruct res; inversion H; subst; exact Hk.
      * intros key' _ Hkey Hproto. inversion Hkey; subst. contradiction.
    + inversion H; subst. split.
      * intros k Hk. apply obj_set_keys. now right.
      * intros key' _ Hkey _. inversion Hkey; subst. apply obj_set_keys. now left.
  - inversion H; subst. split; [auto | discriminate].
Qed.

Lemma all_succeed_keys (actions : list Action)
  (own inherited : list (string * value)) (w : W) (results : list value)
  (own' inherited' : list (string * value)) (w' : W) :
  all_succeed rt getHandler actions own inherited w results own' inherited' w' ->
  (forall k, In k (map fst own) -> In k (map fst own'))
  /\ (forall a key, In a actions -> truthy (act_output a) = true ->
                    ToString rt (act_output a) = Returned key ->
                    key <> "__proto__" -> In key (map fst own')).
Proof.
  induction 1 as [|a rest own inherited w result ownA inhA wA results own' inh' w'
                    Hp Hrest [IHk IHa]].
  - split; [auto | intros a key []].
  - destruct (perform_keys _ _ _ _ _ _ _ _ Hp) as [Hk Ha]. split.
    + intros k Hin. apply IHk, Hk, Hin.
    + intros b key [<-|Hin] Ht Hkey Hproto.
      * apply IHk. exact (Ha key Ht Hkey Hproto).
      * exact (IHa b key Hin Ht Hkey Hproto).
Qed.

(** X3.  What a successful action stores under its output key is what
    a later path reads: with a one-segment key [k] other than
    [__proto__], the text [{{k}}] resolves against the new context to
    the string form of the result, and raises when the result has
    none.  When the handler returned undefined the key is bound to
    undefined and the text stays as it is, whatever [k] was bound to
    before. *)
Theorem output_read_by_later_paths (executionId : string) (action : Action)
  (r : Run W) (result : value) (w' : W) (k : string) :
  dispatch rt getHandler action (view (run_context r) (run_inherited r))
    (run_world r) = (Returned result, w') ->
  act_output action = VStr k ->
  simple_key k = true ->
  k <> "__proto__" ->
  exists r',
    run_action rt getHandler executionId action r = (Returned tt, r')
    /\ resolveVariables rt (VStr ("{{" ++ k ++ "}}"))
         (view (run_context r') (run_inherited r'))
       = if is_undefined result then Returned (VStr ("{{" ++ k ++ "}}"))
         else (let? t := ToString rt result in Returned (VStr t)).
Proof.
  intros Hd Ho Hk Hproto.
  assert (Ht : truthy (act_output action) = true).
  { rewrite Ho. apply andb_true_iff in Hk as [Hne _]. exact Hne. }
  assert (Hp : perform rt getHandler action (run_context r) (run_inherited r)
                 (run_world r)
               = (Returned (result, (obj_set (run_context r) k result,
                                     run_inherited r)), w')).
  { unfold perform. rewrite Hd, Ht, Ho. cbn [ToString]. unfold assign_context.
    apply String.eqb_neq in Hproto. now rewrite Hproto. }
  eexists. split; [rewrite run_action_spec; cbv zeta; rewrite Hp; reflexivity|].
  cbn [run_context run_inherited].
  transitivity
    (let? t := substituteString rt ("{{" ++ k ++ "}}")
                 (VObj (obj_set (run_context r) k result ++ run_inherited r)) in
     Returned (VStr t)); [reflexivity|].
  rewrite (substituteString_simple_key rt _ k Hk (has_key_set_app _ _ k result)).
  rewrite obj_get_set_app_same.
  destruct (is_undefined result); reflexivity.
Qed.


(** X12.  Nothing is ever removed from the context: the context a
    successful run returns still has the four keys it started with,
    and has the output key of every action that declares a truthy
    one other than [__proto__]. *)
Theorem context_only_grows (env : Env) (workflow : Workflow)
  (triggerData : value) (d : Database) (w : W)
  (res : ExecutionResult) (r_end : Run W) (ctx : list (string * value)) :
  execute rt getHandler env workflow triggerData d w = (Returned res, r_end) ->
  context res = Some ctx ->
  (forall k, In k ["trigger"; "workflow"; "now"; "executionId"] ->
             In k (map fst ctx))
  /\ (forall a key, In a (wf_actions workflow) ->
                    truthy (act_output a) = true ->
                    ToString rt (act_output a) = Returned key ->
                    key <> "__proto__" ->
                    In key (map fst ctx)).
Proof.
  intros Hexec Hctx.
  set (d0 := run_db (start_of_run env workflow triggerData d w)).
  destruct (actions_outcome W rt getHandler (wf_actions workflow)
              (run_context (start_of_run env workflow triggerData d w)) [] w)
    as [(results & own' & inh' & w' & Hall)
       |(pre & a & post & results & own_k & inh_k & w_k & e & w' & Hwf & Hpre & Hp)].
  - destruct (for_actions_succeed W rt getHandler (uuidv4 env) _ _ _ _ _ _ _ _
                Hall d0 []) as (d' & Hrun & _).
    rewrite (execute_completed W rt getHandler env workflow triggerData d w _ Hrun)
      in Hexec.
    inversion Hexec; subst. cbn [context run_context] in Hctx.
    inversion Hctx; subst.
    destruct (all_succeed_keys _ _ _ _ _ _ _ _ Hall) as [Hk Ha].
    split; [|exact Ha].
    intros k Hin. apply Hk. exact Hin.
  - destruct (for_actions_succeed W rt getHandler (uuidv4 env) _ _ _ _ _ _ _ _
                Hpre d0 []) as (d_k & Hrun & _).
    pose proof (for_actions_stops W rt getHandler (uuidv4 env) pre post a
                  (start_of_run env workflow triggerData d w) _ _ _ _ _ e w'
                  Hrun Hp) as Hstop.
    cbv zeta in Hstop. rewrite <- Hwf in Hstop.
    destruct (failure_report rt e) as [msg|e2] eqn:Hmsg.
    + rewrite (execute_failed W rt getHandler env workflow triggerData d w e _ msg
                 Hstop Hmsg) in Hexec.
      inversion Hexec; subst. discriminate.
    + destruct (failure_report_raised rt e e2 Hmsg) as [m ->].
      rewrite (execute_failed_unread W rt getHandler env workflow triggerData d w m _
                 Hstop) in Hexec.
      inversion Hexec; subst. discriminate.
Qed.
End EngineExtras.

Lemma output_read_by_later_paths_witness :
  exists r',
    run_action bare_runtime demo_registry "run-1" demo_first
      (start_of_run demo_env (demo_workflow [demo_first]) demo_trigger
         empty_database 0) = (Returned tt, r')
    /\ resolveVariables bare_runtime (VStr ("{{" ++ "first" ++ "}}"))
         (view (run_context r') (run_inherited r'))
       = Returned (VStr "[object Object]").
Proof.
  apply (output_read_by_later_paths nat bare_runtime demo_registry "run-1"
           demo_first
           (start_of_run demo_env (demo_workflow [demo_first]) demo_trigger
              empty_database 0)
           (VObj [("text", VStr "Hi Ana")]) 1 "first").
  - reflexivity.
  - reflexivity.
  - reflexivity.
  - discriminate.
Defined.


Lemma context_only_grows_witness :
  let ctx := [ ("trigger", demo_trigger);
               ("workflow", VObj [("id", VStr "wf-1"); ("name", VStr "Demo")]);
               ("now", VStr "2024-01-01T00:00:00.000Z");
               ("executionId", VStr "run-1");
               ("first", VObj [("text", VStr "Hi Ana")]);
               ("last", VStr "Hi Ana") ] in
  (forall k, In k ["trigger"; "workflow"; "now"; "executionId"] ->
             In k (map fst ctx))
  /\ (forall a key, In a [demo_first; demo_last] ->
                    truthy (act_output a) = true ->
                    ToString bare_runtime (act_output a) = Returned key ->
                    key <> "__proto__" ->
                    In key (map fst ctx)).
Proof.
  intros ctx.
  apply (context_only_grows nat bare_runtime demo_registry demo_env
           (demo_workflow [demo_first; demo_last]) demo_trigger
           empty_database 0
           {| success := true; execution_id := "run-1"; result_error := None;
              log := [ completed_entry demo_first (VObj [("text", VStr "Hi Ana")]);
                       completed_entry demo_last (VStr "Hi Ana") ];
              context := Some ctx |}
           (snd (execute bare_runtime demo_registry demo_env
                   (demo_workflow [demo_first; demo_last]) demo_trigger
                   empty_database 0))
           ctx).
  - vm_compute. reflexivity.
  - reflexivity.
Defined.
